(** * useTimeSlice: the time-sliced chunk scheduler

    A shallow embedding of the hook [useTimeSlice] and of the part of the
    host it talks to ([window.setTimeout], [clearTimeout],
    the three user callbacks), followed by the properties of the scheduler.

    Modelling decisions.
    - JS numbers that hold indices and sizes are integers ([Z]); [count]
      may be zero or negative, as the source does not validate it.
    - [result] is a JS array: a list of slots, [None] being a hole.  A
      write past the end extends the array.
    - The closure variables and the host (clock, timer queue, log of the
      calls made to [handler], [onProgress], [onComplete]) form one
      [World]; the source is written in a state monad over it.
    - [handler], [onProgress] and [onComplete] do not call back into the
      scheduler and do not throw. *)

From Stdlib Require Import ZArith List Bool Lia Arith.
Import ListNotations.
Open Scope Z_scope.
Set Warnings "-notation-for-abbreviation".

(** ** A small state monad *)

Module StateM.

Definition M (S A : Type) : Type := S -> A * S.

Definition ret {S A} (a : A) : M S A := fun s => (a, s).

Definition bind {S A B} (m : M S A) (k : A -> M S B) : M S B :=
  fun s => let (a, s') := m s in k a s'.

Definition gets {S A} (f : S -> A) : M S A := fun s => (f s, s).

Definition modify {S} (f : S -> S) : M S unit := fun s => (tt, f s).

Definition exec {S A} (m : M S A) (s : S) : S := snd (m s).

End StateM.
Import StateM.

Declare Scope monad_scope.
Delimit Scope monad_scope with monad.
Notation "x <- m ;; k" := (bind m (fun x => k))
  (at level 61, m at next level, right associativity) : monad_scope.
Notation "m ;; k" := (bind m (fun _ => k))
  (at level 61, right associativity) : monad_scope.
Open Scope monad_scope.

(** ** JS arrays *)

Section JsArray.
Variable A : Type.

(** [a[i] = v]: an in-range index overwrites the slot, an index at or past
    the end extends the array, the slots in between being holes.  A
    negative index names an ordinary property, not an element. *)
Fixpoint overwrite (a : list (option A)) (n : nat) (v : A) : list (option A) :=
  match a, n with
  | [], _ => []
  | _ :: a', O => Some v :: a'
  | x :: a', S n' => x :: overwrite a' n' v
  end.

Definition array_set (a : list (option A)) (i : Z) (v : A) : list (option A) :=
  if i <? 0 then a
  else
    let n := Z.to_nat i in
    if (n <? length a)%nat then overwrite a n v
    else a ++ repeat None (n - length a) ++ [Some v].

(** [a[i]]; [undef] is what a read outside the array gives. *)
Definition array_get (undef : A) (a : list A) (i : Z) : A :=
  if i <? 0 then undef else nth (Z.to_nat i) a undef.

End JsArray.
Arguments overwrite {A} a n v.
Arguments array_set {A} a i v.
Arguments array_get {A} undef a i.

(** [i, i+1, ..., i+n-1] *)
Fixpoint zseq (i : Z) (n : nat) : list Z :=
  match n with
  | O => []
  | S n' => i :: zseq (i + 1) n'
  end.

(** ** The host *)

(** A continuation scheduled with [setTimeout].  The only function the
    scheduler ever schedules is [processChunk], so a timer is its handle
    and the time from which it may fire. *)
Record Timer : Type := { tid : nat; due : Z }.

(** What can happen to a scheduler: one of its four operations is called,
    time passes, or the host runs the continuation of a pending timer
    (never before it is due). *)
Inductive Action : Type :=
| Start | Pause | Resume | Stop
| Tick (ms : Z)
| Fire (id : nat).

Definition is_host (a : Action) : bool :=
  match a with Tick _ | Fire _ => true | _ => false end.

Definition is_start (a : Action) : bool :=
  match a with Start => true | _ => false end.

Definition is_stop (a : Action) : bool :=
  match a with Stop => true | _ => false end.

(** The pending timer that is due first (the older one on a tie). *)
Fixpoint earliest (l : list Timer) : option Timer :=
  match l with
  | [] => None
  | t :: l' =>
      match earliest l' with
      | Some u => if due u <? due t then Some u else Some t
      | None => Some t
      end
  end.

(** ** The types of useTimeSlice *)

(** [TimeSliceOptions<T, R>].  An optional callback is represented by
    whether it was supplied; its calls are recorded in the log.  [count]
    and [interval] are integers: a count with a fractional part is not
    covered. *)
Record TimeSliceOptions (T R : Type) : Type := {
  opt_data : list T;
  opt_count : option Z;
  opt_interval : option Z;
  opt_handler : T -> Z -> R;
  opt_onComplete : bool;
  opt_onProgress : bool
}.
Arguments opt_data {T R} _.
Arguments opt_count {T R} _.
Arguments opt_interval {T R} _.
Arguments opt_handler {T R} _ _ _.
Arguments opt_onComplete {T R} _.
Arguments opt_onProgress {T R} _.

(** A call made by the scheduler to user code. *)
Inductive Call (T R : Type) : Type :=
| CallHandler (item : T) (index : Z)
| CallProgress (completed total : Z)
| CallComplete (res : list (option R)).
Arguments CallHandler {T R} item index.
Arguments CallProgress {T R} completed total.
Arguments CallComplete {T R} res.

Record World (T R : Type) : Type := mkWorld {
  (* closure state of useTimeSlice *)
  isRunning : bool;
  isPaused : bool;
  timeoutId : option nat;
  currentIndex : Z;
  result : list (option R);
  (* host *)
  now : Z;
  nextTimerId : nat;
  timers : list Timer;
  calls : list (Call T R)
}.
Arguments mkWorld {T R} _ _ _ _ _ _ _ _ _.
Arguments isRunning {T R} _.
Arguments isPaused {T R} _.
Arguments timeoutId {T R} _.
Arguments currentIndex {T R} _.
Arguments result {T R} _.
Arguments now {T R} _.
Arguments nextTimerId {T R} _.
Arguments timers {T R} _.
Arguments calls {T R} _.

(** The calls of a log, by callee. *)
Definition handler_calls {T R} (l : list (Call T R)) : list (T * Z) :=
  flat_map (fun c => match c with CallHandler x i => [(x, i)] | _ => [] end) l.

Definition progress_calls {T R} (l : list (Call T R)) : list (Z * Z) :=
  flat_map (fun c => match c with CallProgress a b => [(a, b)] | _ => [] end) l.

Definition complete_calls {T R} (l : list (Call T R)) : list (list (option R)) :=
  flat_map (fun c => match c with CallComplete r => [r] | _ => [] end) l.

(** The options of the scenarios of the test-suite. *)
Module Scenario.

Definition double (x : Z) (_ : Z) : Z := 2 * x.

Definition opts (d : list Z) (c ms : Z) : TimeSliceOptions Z Z :=
  {| opt_data := d; opt_count := Some c; opt_interval := Some ms;
     opt_handler := double; opt_onComplete := true; opt_onProgress := true |}.

(** [items = [1,2,3,4,5]], [chunkSize = 2], [intervalMs = 100] *)
Definition five := opts [1; 2; 3; 4; 5] 2 100.

(** Two items, one per slice. *)
Definition two := opts [1; 2] 1 100.

(** Five items, one per slice. *)
Definition one_by_one := opts [1; 2; 3; 4; 5] 1 100.

(** The numbers 1 to 25, default count and interval. *)
Definition defaults : TimeSliceOptions Z Z :=
  {| opt_data := map Z.of_nat (seq 1 25); opt_count := None;
     opt_interval := None; opt_handler := double;
     opt_onComplete := true; opt_onProgress := true |}.

(** No item, default count and interval. *)
Definition none : TimeSliceOptions Z Z :=
  {| opt_data := []; opt_count := None; opt_interval := None;
     opt_handler := double; opt_onComplete := true; opt_onProgress := true |}.

End Scenario.

(** ** useThrottle *)

Module Throttle.

(** What happens to a throttled function: it is called, or the clock that
    [Date.now()] reads is set (it usually moves forward, but nothing in
    the code relies on that). *)
Inductive Action (Args : Type) : Type :=
| Invoke (args : Args)
| Clock (t : Z).
Arguments Invoke {Args} args.
Arguments Clock {Args} t.

(** The closure variable [lastExecuteTime], the clock, and the log of the
    calls made to [fn], each with the time it was made at. *)
Record World (Args : Type) : Type := mkWorld {
  lastExecuteTime : Z;
  clock : Z;
  executed : list (Z * Args)
}.
Arguments mkWorld {Args} _ _ _.
Arguments lastExecuteTime {Args} _.
Arguments clock {Args} _.
Arguments executed {Args} _.

Section Defs.
Variable Args : Type.
Variable delay : Z.

(** [useThrottle(fn, delay)] has returned: [lastExecuteTime = 0]. *)
Definition init (t0 : Z) : World Args := mkWorld 0 t0 [].

Definition call_fn (args : Args) : M (World Args) unit :=
  modify (fun w =>
    mkWorld (lastExecuteTime w) (clock w) (executed w ++ [(clock w, args)])).

(** The function that [useThrottle] returns. *)
Definition throttled (args : Args) : M (World Args) unit :=
  now <- gets clock ;;
  last <- gets lastExecuteTime ;;
  if delay <=? now - last then
    modify (fun w => mkWorld now (clock w) (executed w)) ;;
    call_fn args
  else ret tt.

Definition step (a : Action Args) (w : World Args) : World Args :=
  match a with
  | Invoke args => exec (throttled args) w
  | Clock t => mkWorld (lastExecuteTime w) t (executed w)
  end.

Definition run (acts : list (Action Args)) (w : World Args) : World Args :=
  fold_left (fun w a => step a w) acts w.

(** The calls of a history, each with the time on the clock when made. *)
Fixpoint invocations (t : Z) (acts : list (Action Args)) : list (Z * Args) :=
  match acts with
  | [] => []
  | Invoke args :: acts' => (t, args) :: invocations t acts'
  | Clock t' :: acts' => invocations t' acts'
  end.

(** The times of [l] are at least [delay] apart, the first one at least
    [delay] after [prev]. *)
Fixpoint spaced (prev : Z) (l : list (Z * Args)) : Prop :=
  match l with
  | [] => True
  | (t, _) :: l' => delay <= t - prev /\ spaced t l'
  end.

(** The times of [l] are all less than [delay] after [prev]. *)
Definition within (prev : Z) (l : list (Z * Args)) : Prop :=
  Forall (fun c => fst c - prev < delay) l.

(** The time of the last element of [l], [prev] if there is none. *)
Definition last_time (prev : Z) (l : list (Z * Args)) : Z :=
  fold_left (fun _ c => fst c) l prev.

(** The clock never goes back in [acts], started at time [t]. *)
Fixpoint monotone (t : Z) (acts : list (Action Args)) : Prop :=
  match acts with
  | [] => True
  | Invoke _ :: acts' => monotone t acts'
  | Clock t' :: acts' => t <= t' /\ monotone t' acts'
  end.

End Defs.
Arguments init {Args} t0.
Arguments call_fn {Args} args _.
Arguments throttled {Args} delay args _.
Arguments step {Args} delay a w.
Arguments run {Args} delay acts w.
Arguments invocations {Args} t acts.
Arguments spaced {Args} delay prev l.
Arguments within {Args} delay prev l.
Arguments last_time {Args} prev l.
Arguments monotone {Args} t acts.

(** [l1] is [l2] with some elements left out. *)
Inductive Subseq {A : Type} : list A -> list A -> Prop :=
| Subseq_nil : Subseq [] []
| Subseq_skip x l1 l2 : Subseq l1 l2 -> Subseq l1 (x :: l2)
| Subseq_keep x l1 l2 : Subseq l1 l2 -> Subseq (x :: l1) (x :: l2).

End Throttle.

(** ** useDebounce *)

Module Debounce.

(** What happens to a debounced function: it is called, the clock that
    [Date.now()] reads is set, or the host runs the callback that has
    waited longest among those handed to [requestAnimationFrame] (or to
    [Promise.resolve().then] where there are no animation frames). *)
Inductive Action (Args : Type) : Type :=
| Call (args : Args)
| Clock (t : Z)
| RunNext.
Arguments Call {Args} args.
Arguments Clock {Args} t.
Arguments RunNext {Args}.

(** What can be observed: a call of the debounced function, and a call
    that it makes to [fn] with the value of [lastArgs]. *)
Inductive Event (Args : Type) : Type :=
| Called (t : Z) (args : Args)
| Executed (t : Z) (args : option Args).
Arguments Called {Args} t args.
Arguments Executed {Args} t args.

(** The closure variables [lastCallTime], [lastArgs] (not initialised at
    first) and [executeId]; the clock; the [checkTime] callbacks that
    wait for the host, each one with the [currentId] of its closure,
    oldest first; and the events so far. *)
Record World (Args : Type) : Type := mkWorld {
  lastCallTime : Z;
  lastArgs : option Args;
  executeId : nat;
  clock : Z;
  queue : list nat;
  log : list (Event Args)
}.
Arguments mkWorld {Args} _ _ _ _ _ _.
Arguments lastCallTime {Args} _.
Arguments lastArgs {Args} _.
Arguments executeId {Args} _.
Arguments clock {Args} _.
Arguments queue {Args} _.
Arguments log {Args} _.

Section Defs.
Variable Args : Type.
Variable delay : Z.

(** [useDebounce(fn, delay)] has returned. *)
Definition init (t0 : Z) : World Args := mkWorld 0 None 0 t0 [] [].

(** [requestAnimationFrame(checkTime)] or
    [Promise.resolve().then(checkTime)]. *)
Definition defer (currentId : nat) : M (World Args) unit :=
  modify (fun w =>
    mkWorld (lastCallTime w) (lastArgs w) (executeId w) (clock w)
            (queue w ++ [currentId]) (log w)).

(** [fn(...lastArgs)] *)
Definition call_fn : M (World Args) unit :=
  modify (fun w =>
    mkWorld (lastCallTime w) (lastArgs w) (executeId w) (clock w) (queue w)
            (log w ++ [Executed (clock w) (lastArgs w)])).

Definition checkTime (currentId : nat) : M (World Args) unit :=
  now <- gets clock ;;
  last <- gets lastCallTime ;;
  let timeSinceLastCall := now - last in
  cur <- gets executeId ;;
  if negb (Nat.eqb currentId cur) then ret tt
  else if delay <=? timeSinceLastCall then call_fn
  else defer currentId.

Definition scheduleExecution (currentId : nat) : M (World Args) unit :=
  defer currentId.

(** The function that [useDebounce] returns. *)
Definition debounced (args : Args) : M (World Args) unit :=
  modify (fun w =>
    mkWorld (clock w) (Some args) (S (executeId w)) (clock w) (queue w)
            (log w ++ [Called (clock w) args])) ;;
  cur <- gets executeId ;;
  scheduleExecution cur.

Definition step (a : Action Args) (w : World Args) : World Args :=
  match a with
  | Call args => exec (debounced args) w
  | Clock t =>
      mkWorld (lastCallTime w) (lastArgs w) (executeId w) t (queue w) (log w)
  | RunNext =>
      match queue w with
      | [] => w
      | currentId :: rest =>
          exec (checkTime currentId)
               (mkWorld (lastCallTime w) (lastArgs w) (executeId w) (clock w)
                        rest (log w))
      end
  end.

Definition run (acts : list (Action Args)) (w : World Args) : World Args :=
  fold_left (fun w a => step a w) acts w.

(** The last call of a log, after [last]. *)
Definition last_call (last : option (Z * Args)) (l : list (Event Args))
  : option (Z * Args) :=
  fold_left (fun o e => match e with
                        | Called t a => Some (t, a)
                        | Executed _ _ => o
                        end) l last.

(** Whether [fn] has run since the last call of a log. *)
Definition fired (f : bool) (l : list (Event Args)) : bool :=
  fold_left (fun b e => match e with
                        | Called _ _ => false
                        | Executed _ _ => true
                        end) l f.

(** What a debounced function owes: every run of [fn] comes after a call,
    at least [delay] later, with the arguments of that call, and is the
    only one since that call. *)
Fixpoint debounced_log (last : option (Z * Args)) (f : bool)
    (l : list (Event Args)) : Prop :=
  match l with
  | [] => True
  | Called t a :: l' => debounced_log (Some (t, a)) false l'
  | Executed t a :: l' =>
      f = false /\
      (exists t0 a0, last = Some (t0, a0) /\ a = Some a0 /\ delay <= t - t0) /\
      debounced_log last true l'
  end.

(** The runs of [fn] in a log. *)
Fixpoint executions (l : list (Event Args)) : list (Z * option Args) :=
  match l with
  | [] => []
  | Called _ _ :: l' => executions l'
  | Executed t a :: l' => (t, a) :: executions l'
  end.

(** The number of waiting callbacks that belong to the latest call. *)
Definition live (w : World Args) : nat :=
  count_occ Nat.eq_dec (queue w) (executeId w).

(** What holds of the closure variables and of the waiting callbacks
    after any history. *)
Record consistent (w : World Args) : Prop := mkConsistent {
  c_log : debounced_log None false (log w);
  c_last : last_call None (log w)
           = match lastArgs w with
             | Some a => Some (lastCallTime w, a)
             | None => None
             end;
  c_ids : Forall (fun id => (id <= executeId w)%nat) (queue w);
  c_fresh : executeId w = 0%nat ->
            lastArgs w = None /\ queue w = [] /\ log w = [];
  c_args : (0 < executeId w)%nat -> lastArgs w <> None;
  c_live : (0 < executeId w)%nat ->
           live w = if fired false (log w) then 0%nat else 1%nat
}.

(** The clock stays in [[lo, hi)] along a history. *)
Fixpoint clock_within (lo hi : Z) (acts : list (Action Args)) : Prop :=
  match acts with
  | [] => True
  | Clock t :: acts' => lo <= t < hi /\ clock_within lo hi acts'
  | _ :: acts' => clock_within lo hi acts'
  end.

End Defs.

Arguments init {Args} t0.
Arguments defer {Args} currentId _.
Arguments call_fn {Args} _.
Arguments checkTime {Args} delay currentId _.
Arguments scheduleExecution {Args} currentId _.
Arguments debounced {Args} args _.
Arguments step {Args} delay a w.
Arguments run {Args} delay acts w.
Arguments last_call {Args} last l.
Arguments fired {Args} f l.
Arguments debounced_log {Args} delay last f l.
Arguments executions {Args} l.
Arguments live {Args} w.
Arguments consistent {Args} delay w.
Arguments clock_within {Args} lo hi acts.

End Debounce.

(** ** The directives integerOnly and decimalOnly *)

Module NumberOnly.

(** A JS string, as its UTF-16 code units. *)
Definition JsString : Type := list Z.

(** [\d] *)
Definition is_digit (c : Z) : bool := (48 <=? c) && (c <=? 57).

(** The code unit of [.] *)
Definition is_dot (c : Z) : bool := c =? 46.

(** [[\d.]] *)
Definition is_decimal (c : Z) : bool := is_digit c || is_dot c.

(** [s.slice(0, end_)]: a negative [end_] counts from the end. *)
Definition slice0 (s : JsString) (end_ : Z) : JsString :=
  let len := Z.of_nat (length s) in
  let to := if end_ <? 0 then Z.max (len + end_) 0 else Z.min end_ len in
  firstn (Z.to_nat to) s.

(** [s.substring(start, end_)]: both ends are clamped to the string, and
    swapped if the first is the larger. *)
Definition substring (s : JsString) (start end_ : Z) : JsString :=
  let len := Z.of_nat (length s) in
  let a := Z.min (Z.max start 0) len in
  let b := Z.min (Z.max end_ 0) len in
  firstn (Z.to_nat (Z.max a b - Z.min a b)) (skipn (Z.to_nat (Z.min a b)) s).

(** [s.substring(start)] *)
Definition substring_from (s : JsString) (start : Z) : JsString :=
  substring s start (Z.of_nat (length s)).

(** [s.indexOf(".")] *)
Fixpoint indexOf_dot (s : JsString) : Z :=
  match s with
  | [] => -1
  | c :: s' =>
      if is_dot c then 0
      else let i := indexOf_dot s' in if i <? 0 then -1 else i + 1
  end.

(** [s.replace(/^\./, "")] *)
Definition strip_leading_dot (s : JsString) : JsString :=
  match s with
  | c :: s' => if is_dot c then s' else s
  | [] => []
  end.

(** [s.replace(/\./g, "")] *)
Definition strip_dots (s : JsString) : JsString :=
  filter (fun c => negb (is_dot c)) s.

(** The value that [integerOnly] puts in place of [originalValue]:
    [originalValue.replace(/\D/g, "").slice(0, limit)]. *)
Definition integer_filter (limit : Z) (originalValue : JsString) : JsString :=
  slice0 (filter is_digit originalValue) limit.

(** Only the first dot is kept. *)
Definition keep_first_dot (newValue : JsString) : JsString :=
  let firstDotIndex := indexOf_dot newValue in
  if firstDotIndex =? -1 then newValue
  else
    substring newValue 0 (firstDotIndex + 1) ++
    strip_dots (substring_from newValue (firstDotIndex + 1)).

(** The digits after the dot are cut down to [limit]. *)
Definition limit_decimals (limit : Z) (newValue : JsString) : JsString :=
  let dotIndex := indexOf_dot newValue in
  if negb (dotIndex =? -1)
     && (limit <? Z.of_nat (length newValue) - dotIndex - 1)
  then slice0 newValue (dotIndex + limit + 1)
  else newValue.

(** The value that [decimalOnly] puts in place of [originalValue]. *)
Definition decimal_filter (limit : Z) (originalValue : JsString) : JsString :=
  limit_decimals limit
    (keep_first_dot (strip_leading_dot (filter is_decimal originalValue))).

(** The decimal digits of [n], most significant first, for [n >= 0] and
    enough [fuel]. *)
Fixpoint digits (fuel : nat) (n : Z) : JsString :=
  match fuel with
  | O => []
  | S fuel' =>
      if n <? 10 then [48 + n]
      else digits fuel' (n / 10) ++ [48 + n mod 10]
  end.

(** [n.toString()] for an integer [n] of absolute value at most 2^53: its
    decimal digits, after a minus sign if it is negative.  Up to 2^53
    every integer is a number of the language and is printed exactly;
    beyond, numbers are printed rounded, and in exponent notation from
    10^21 on, which this definition does not follow: what is proved of it
    is proved for [n] up to 2^53. *)
Definition number_toString (n : Z) : JsString :=
  if n <? 0 then 45 :: digits (S (Z.to_nat (Z.log2 (- n)))) (- n)
  else digits (S (Z.to_nat (Z.log2 n))) n.

(** The number that a string of decimal digits denotes. *)
Definition digits_value (s : JsString) : Z :=
  fold_left (fun acc c => 10 * acc + (c - 48)) s 0.

(** The value of a directive binding that is not null or undefined. *)
Inductive Value : Type :=
| VNumber (n : Z)
| VString (s : JsString)
| VOther.

Definition formatInteger (value : Value) (limit : Z) : JsString :=
  match value with
  | VNumber n => integer_filter limit (number_toString n)
  | VString s => integer_filter limit s
  | VOther => []
  end.

Definition formatDecimal (value : Value) (limit : Z) : JsString :=
  match value with
  | VNumber n => decimal_filter limit (number_toString n)
  | VString s => decimal_filter limit s
  | VOther => []
  end.

(** The value of the field after [mounted], for a field that held
    [el_value]; [None] when the hook throws.  [binding] is [None] for a
    value that is null or undefined: the limit is then 2 and the field is
    left alone. *)
Definition mounted_value (format : Value -> Z -> JsString)
    (binding : option Value) (el_value : JsString) : option JsString :=
  match binding with
  | None => Some el_value
  | Some (VNumber limit) => Some (format (VNumber limit) limit)
  | Some _ => None
  end.

(** The value of the field after [updated], for a binding that [mounted]
    accepts. *)
Definition updated_value (format : Value -> Z -> JsString)
    (binding : option Z) (el_value : JsString) : JsString :=
  match binding with
  | None => el_value
  | Some limit =>
      let formattedValue := format (VNumber limit) limit in
      if list_eq_dec Z.eq_dec formattedValue el_value then el_value
      else formattedValue
  end.

(** The input element and the closure variable [isComposing] of one
    mounted directive; [dispatched] counts the input events that
    [handleInput] has dispatched. *)
Record Input : Type := mkInput {
  isComposing : bool;
  value : JsString;
  selectionStart : Z;
  dispatched : nat
}.

(** [handleInput], the same in both directives but for the filter.  The
    event it dispatches is delivered at once, to [handleInput] itself
    among the listeners: [fuel] bounds the depth of these nested calls,
    [None] meaning that it did not suffice. *)
Fixpoint handleInput (filter_value : JsString -> JsString) (fuel : nat)
    (w : Input) : option Input :=
  if isComposing w then Some w
  else
    let cursorPosition := selectionStart w in
    let originalValue := value w in
    let newValue := filter_value originalValue in
    if list_eq_dec Z.eq_dec newValue originalValue then Some w
    else
      let lengthDiff :=
        Z.of_nat (length originalValue) - Z.of_nat (length newValue) in
      let newCursorPos :=
        if cursorPosition =? 0 then 0
        else Z.max 0 (cursorPosition - lengthDiff) in
      let w' :=
        mkInput false newValue
                (Z.min newCursorPos (Z.of_nat (length newValue)))
                (S (dispatched w)) in
      match fuel with
      | O => None
      | S fuel' => handleInput filter_value fuel' w'
      end.

(** What the browser does to the field. *)
Inductive Event : Type :=
| Typed (v : JsString) (cursor : Z)
| CompositionStart
| CompositionEnd.

(** The listeners that [mounted] registers.  An edit of the user leaves
    [v] in the field and the cursor at [cursor], and fires an input
    event. *)
Definition on_event (filter_value : JsString -> JsString) (e : Event)
    (w : Input) : option Input :=
  match e with
  | Typed v cursor =>
      handleInput filter_value (length v)
        (mkInput (isComposing w) v cursor (dispatched w))
  | CompositionStart =>
      Some (mkInput true (value w) (selectionStart w) (dispatched w))
  | CompositionEnd =>
      handleInput filter_value (length (value w))
        (mkInput false (value w) (selectionStart w) (dispatched w))
  end.

Fixpoint on_events (filter_value : JsString -> JsString) (es : list Event)
    (w : Input) : option Input :=
  match es with
  | [] => Some w
  | e :: es' =>
      match on_event filter_value e w with
      | Some w' => on_events filter_value es' w'
      | None => None
      end
  end.

(** [f] only removes: its result is not longer than its argument, and is
    the argument itself when it has the same length. *)
Definition shrinking (f : JsString -> JsString) : Prop :=
  forall s, (length (f s) <= length s)%nat /\
            (length (f s) = length s -> f s = s).

(** [s] cut at its first dot: what comes before, and what comes after if
    there is a dot. *)
Fixpoint cut_at_dot (s : JsString) : JsString * option JsString :=
  match s with
  | [] => ([], None)
  | c :: s' =>
      if is_dot c then ([], Some s')
      else let (pre, post) := cut_at_dot s' in (c :: pre, post)
  end.

(** [s] is a value that [decimalOnly] leaves alone when [limit] is not
    negative: digits with at most one dot, which is not the first
    character and has at most [limit] digits after it. *)
Definition decimal_ok (limit : Z) (s : JsString) : Prop :=
  forallb is_decimal s = true /\
  (count_occ Z.eq_dec s 46%Z <= 1)%nat /\
  (match s with c :: _ => is_dot c = false | [] => True end) /\
  (forall i, indexOf_dot s = i -> 0 <= i ->
             Z.of_nat (length s) - i - 1 <= limit).

End NumberOnly.

(** ** The scheduler *)

Section UseTimeSlice.
Variables T R : Type.

(** The value of [data[i]] outside the array. *)
Variable undefined : T.

Variable options : TimeSliceOptions T R.

Local Notation World := (World T R).
Local Notation Call := (Call T R).

(** [const { data, count = 10, interval = 16, handler, onComplete,
    onProgress } = options] *)
Definition data : list T := opt_data options.
Definition count : Z :=
  match opt_count options with Some c => c | None => 10 end.
Definition interval : Z :=
  match opt_interval options with Some ms => ms | None => 16 end.
Definition handler : T -> Z -> R := opt_handler options.
Definition onComplete : bool := opt_onComplete options.
Definition onProgress : bool := opt_onProgress options.

Definition set_isRunning (b : bool) (w : World) : World :=
  mkWorld b (isPaused w) (timeoutId w) (currentIndex w) (result w)
          (now w) (nextTimerId w) (timers w) (calls w).
Definition set_isPaused (b : bool) (w : World) : World :=
  mkWorld (isRunning w) b (timeoutId w) (currentIndex w) (result w)
          (now w) (nextTimerId w) (timers w) (calls w).
Definition set_timeoutId (h : option nat) (w : World) : World :=
  mkWorld (isRunning w) (isPaused w) h (currentIndex w) (result w)
          (now w) (nextTimerId w) (timers w) (calls w).
Definition set_currentIndex (i : Z) (w : World) : World :=
  mkWorld (isRunning w) (isPaused w) (timeoutId w) i (result w)
          (now w) (nextTimerId w) (timers w) (calls w).
Definition set_result (r : list (option R)) (w : World) : World :=
  mkWorld (isRunning w) (isPaused w) (timeoutId w) (currentIndex w) r
          (now w) (nextTimerId w) (timers w) (calls w).
Definition set_now (t : Z) (w : World) : World :=
  mkWorld (isRunning w) (isPaused w) (timeoutId w) (currentIndex w) (result w)
          t (nextTimerId w) (timers w) (calls w).
Definition set_timers (l : list Timer) (w : World) : World :=
  mkWorld (isRunning w) (isPaused w) (timeoutId w) (currentIndex w) (result w)
          (now w) (nextTimerId w) l (calls w).
Definition log (cs : list Call) (w : World) : World :=
  mkWorld (isRunning w) (isPaused w) (timeoutId w) (currentIndex w) (result w)
          (now w) (nextTimerId w) (timers w) (calls w ++ cs).

(** The world in which [useTimeSlice(options)] returns: both flags false,
    no handle, cursor 0, empty result; a host with no timer. *)
Definition init : World :=
  mkWorld false false None 0 [] 0 1%nat [] [].

(** *** Host primitives *)

(** [window.setTimeout(processChunk, delay)]: a fresh handle; the
    continuation may run once [delay] ms have passed (a negative delay
    counts as 0). *)
Definition setTimeout (delay : Z) : M World nat :=
  fun w =>
    let id := nextTimerId w in
    (id, mkWorld (isRunning w) (isPaused w) (timeoutId w) (currentIndex w)
                 (result w) (now w) (S id)
                 (timers w ++ [{| tid := id; due := now w + Z.max 0 delay |}])
                 (calls w)).

(** [clearTimeout(id)]: the timer, if still pending, is dropped. *)
Definition clearTimeout (id : nat) : M World unit :=
  modify (fun w =>
    set_timers (filter (fun t => negb (tid t =? id)%nat) (timers w)) w).

Definition call_handler (item : T) (i : Z) : M World R :=
  fun w => (handler item i, log [CallHandler item i] w).

(** [onProgress?.(completed, total)] *)
Definition call_onProgress (completed total : Z) : M World unit :=
  if onProgress then modify (log [CallProgress completed total]) else ret tt.

(** [onComplete?.(result)]: the callee receives the array itself; the log
    keeps its contents at the time of the call. *)
Definition call_onComplete (res : list (option R)) : M World unit :=
  if onComplete then modify (log [CallComplete res]) else ret tt.

(** *** The source *)

(** [for (let i = from; i < to; i++) body(i)], [n] being the number of
    iterations left. *)
Fixpoint for_iter (n : nat) (i : Z) (body : Z -> M World unit) : M World unit :=
  match n with
  | O => ret tt
  | S n' => body i ;; for_iter n' (i + 1) body
  end.

Definition for_range (from to : Z) (body : Z -> M World unit) : M World unit :=
  for_iter (Z.to_nat (to - from)) from body.

Definition processChunk : M World unit :=
  running <- gets isRunning ;;
  paused <- gets isPaused ;;
  if negb running || paused then ret tt
  else
    let totalLength := Z.of_nat (length data) in
    cur <- gets currentIndex ;;
    let end_ := Z.min (cur + count) totalLength in
    for_range cur end_ (fun i =>
      r <- call_handler (array_get undefined data i) i ;;
      modify (fun w => set_result (array_set (result w) i r) w)) ;;
    modify (set_currentIndex end_) ;;
    cur' <- gets currentIndex ;;
    call_onProgress cur' totalLength ;;
    if cur' <? totalLength then
      id <- setTimeout interval ;;
      modify (set_timeoutId (Some id))
    else
      modify (set_isRunning false) ;;
      res <- gets result ;;
      call_onComplete res.

Definition start : M World unit :=
  running <- gets isRunning ;;
  if running then ret tt
  else
    modify (set_isRunning true) ;;
    modify (set_isPaused false) ;;
    modify (set_currentIndex 0) ;;
    modify (set_result []) ;;
    processChunk.

Definition pause : M World unit :=
  running <- gets isRunning ;;
  paused <- gets isPaused ;;
  if negb running || paused then ret tt
  else
    modify (set_isPaused true) ;;
    h <- gets timeoutId ;;
    match h with
    | Some id => clearTimeout id ;; modify (set_timeoutId None)
    | None => ret tt
    end.

Definition resume : M World unit :=
  running <- gets isRunning ;;
  paused <- gets isPaused ;;
  if negb running || negb paused then ret tt
  else
    modify (set_isPaused false) ;;
    processChunk.

Definition stop : M World unit :=
  running <- gets isRunning ;;
  if negb running then ret tt
  else
    modify (set_isRunning false) ;;
    modify (set_isPaused false) ;;
    h <- gets timeoutId ;;
    match h with
    | Some id => clearTimeout id ;; modify (set_timeoutId None)
    | None => ret tt
    end ;;
    modify (set_currentIndex 0) ;;
    modify (set_result []).

(** *** The host's side *)

(** The continuation of a pending timer runs: the timer leaves the queue
    and [processChunk] is called. *)
Definition run_timer (t : Timer) : M World unit :=
  clearTimeout (tid t) ;; processChunk.

Definition fire (id : nat) : M World unit :=
  fun w =>
    match find (fun t => (tid t =? id)%nat) (timers w) with
    | Some t => if due t <=? now w then run_timer t w else (tt, w)
    | None => (tt, w)
    end.

Definition step (a : Action) (w : World) : World :=
  match a with
  | Start => exec start w
  | Pause => exec pause w
  | Resume => exec resume w
  | Stop => exec stop w
  | Tick ms => set_now (now w + Z.max 0 ms) w
  | Fire id => exec (fire id) w
  end.

Definition run (acts : list Action) (w : World) : World :=
  fold_left (fun w a => step a w) acts w.

Definition reachable (w : World) : Prop := exists acts, w = run acts init.

(** The fake-timer drivers of the test-suite: the clock jumps to the time
    at which the next timer is due, and that timer runs. *)
Definition run_earliest (t : Timer) (w : World) : World :=
  step (Fire (tid t)) (step (Tick (due t - now w)) w).

(** [vi.runAllTimers()]: run pending timers until none is left. *)
Fixpoint runAllTimers (fuel : nat) (w : World) : option World :=
  match earliest (timers w) with
  | None => Some w
  | Some t =>
      match fuel with
      | O => None
      | S fuel' => runAllTimers fuel' (run_earliest t w)
      end
  end.

(** [vi.advanceTimersByTime(ms)]: run the timers that come due up to
    [target], then set the clock to [target]. *)
Fixpoint advanceTo (fuel : nat) (target : Z) (w : World) : option World :=
  match earliest (timers w) with
  | None => Some (set_now target w)
  | Some t =>
      if due t <=? target then
        match fuel with
        | O => None
        | S fuel' => advanceTo fuel' target (run_earliest t w)
        end
      else Some (set_now target w)
  end.

Definition advanceTimersByTime (fuel : nat) (ms : Z) (w : World) : option World :=
  advanceTo fuel (now w + Z.max 0 ms) w.

(** *** What a chunk step computes *)

Definition total : Z := Z.of_nat (length data).

(** The calls to [handler] made by [n] iterations of the loop from [i]. *)
Definition loop_calls (i : Z) (n : nat) : list Call :=
  map (fun j => CallHandler (array_get undefined data j) j) (zseq i n).

(** The array after [n] iterations of the loop from [i]. *)
Fixpoint loop_result (n : nat) (i : Z) (res : list (option R)) : list (option R) :=
  match n with
  | O => res
  | S n' =>
      loop_result n' (i + 1)
        (array_set res i (handler (array_get undefined data i) i))
  end.

Definition progress_call (completed : Z) : list Call :=
  if onProgress then [CallProgress completed total] else [].

Definition complete_call (res : list (option R)) : list Call :=
  if onComplete then [CallComplete res] else [].

(** The world after a chunk step taken in [w] (Running, not paused). *)
Definition chunk_world (w : World) : World :=
  let cur := currentIndex w in
  let end_ := Z.min (cur + count) total in
  let n := Z.to_nat (end_ - cur) in
  let res := loop_result n cur (result w) in
  let cs := calls w ++ loop_calls cur n ++ progress_call end_ in
  if end_ <? total then
    mkWorld true (isPaused w) (Some (nextTimerId w)) end_ res (now w)
            (S (nextTimerId w))
            (timers w ++ [{| tid := nextTimerId w;
                             due := now w + Z.max 0 interval |}])
            cs
  else
    mkWorld false (isPaused w) (timeoutId w) end_ res (now w)
            (nextTimerId w) (timers w) (cs ++ complete_call res).

(** The timer queue after [if (timeoutId !== null) clearTimeout(timeoutId)]. *)
Definition cancelled (h : option nat) (ts : list Timer) : list Timer :=
  match h with
  | Some id => filter (fun t => negb (tid t =? id)%nat) ts
  | None => ts
  end.

(** The world in which [start] takes its chunk step. *)
Definition fresh_run (w : World) : World :=
  mkWorld true false (timeoutId w) 0 [] (now w) (nextTimerId w) (timers w)
          (calls w).

(** The first [n] slots of the array of a run, all filled. *)
Definition filled (n : nat) : list (option R) :=
  map (fun j => Some (handler (array_get undefined data j) j)) (zseq 0 n).

(** *** The invariant of the reachable worlds *)

Record wf (w : World) : Prop := {
  wf_flags : isPaused w = true -> isRunning w = true;
  wf_timers :
    if isRunning w && negb (isPaused w)
    then exists t, timers w = [t] /\ timeoutId w = Some (tid t)
    else timers w = [];
  wf_active : isRunning w = true -> currentIndex w < total;
  wf_upper : currentIndex w <= total;
  wf_lower : 0 <= count -> 0 <= currentIndex w;
  wf_neg : count < 0 -> currentIndex w <= 0;
  wf_result : result w = filled (Z.to_nat (currentIndex w))
}.

(** The part of the invariant that a chunk step relies on: the slots below
    the cursor are filled, and there is no slot above. *)
Record dense (w : World) : Prop := {
  d_upper : currentIndex w <= total;
  d_lower : 0 <= count -> 0 <= currentIndex w;
  d_neg : count < 0 -> currentIndex w <= 0;
  d_result : result w = filled (Z.to_nat (currentIndex w))
}.

(** *** The calls of a run *)

(** The cursor after the [k]-th chunk step of a run. *)
Definition cursor_at (k : nat) : Z := Z.min (Z.of_nat k * count) total.

(** The calls made by the [k]-th chunk step of a run ([k >= 1]): those of
    the loop and the progress call, then the completion call if the step
    is the last one. *)
Definition chunk_body (k : nat) : list Call :=
  let cur := Z.of_nat (k - 1) * count in
  let end_ := cursor_at k in
  loop_calls cur (Z.to_nat (end_ - cur)) ++ progress_call end_.

Definition chunk_tail (k : nat) : list Call :=
  if cursor_at k <? total then [] else complete_call (filled (length data)).

Definition chunk_calls (k : nat) : list Call := chunk_body k ++ chunk_tail k.

(** The calls made by the first [k] chunk steps of a run. *)
Definition run_calls (k : nat) : list Call :=
  flat_map chunk_calls (seq 1 k).

Definition run_body (k : nat) : list Call :=
  flat_map chunk_body (seq 1 k).

(** A run that began in a world whose log was [base] has taken [k] chunk
    steps; [stopped] tells whether [stop] was called since. *)
Record run_inv (base : list Call) (stopped : bool) (k : nat) (w : World) : Prop := {
  ri_pos : (1 <= k)%nat;
  ri_calls : calls w = base ++ run_calls k;
  ri_before : forall j, (1 <= j < k)%nat -> Z.of_nat j * count < total;
  ri_active :
    isRunning w = true ->
    currentIndex w = Z.of_nat k * count /\ Z.of_nat k * count < total;
  ri_done :
    isRunning w = false -> stopped = false -> total <= Z.of_nat k * count
}.

Arguments ri_pos {base stopped k w} _.
Arguments ri_calls {base stopped k w} _.
Arguments ri_before {base stopped k w} _ _ _.
Arguments ri_active {base stopped k w} _ _.
Arguments ri_done {base stopped k w} _ _ _.

Definition no_start (acts : list Action) : bool :=
  forallb (fun a => negb (is_start a)) acts.

Definition flags_ok (w : World) : Prop :=
  isPaused w = true -> isRunning w = true.

(** [timeoutId] holds a handle exactly when the scheduler is Running with
    elements left, that is, when a slice boundary is pending. *)
Definition handle_tracks_pending (w : World) : Prop :=
  timeoutId w <> None <->
  (isRunning w = true /\ isPaused w = false /\ currentIndex w < total).

(** The operation [m], called in [w], calls neither [onProgress] nor
    [onComplete] before it returns. *)
Definition silent (m : M World unit) (w : World) : Prop :=
  progress_calls (calls (exec m w)) = progress_calls (calls w) /\
  complete_calls (calls (exec m w)) = complete_calls (calls w).

(** [w'] is [v] after one chunk step, as far as the callbacks go: one call
    of [onProgress] with the new cursor, then one of [onComplete] with the
    array if the cursor has reached the end. *)
Definition chunk_callbacks (v w' : World) : Prop :=
  let end_ := Z.min (currentIndex v + count) total in
  currentIndex w' = end_ /\
  progress_calls (calls w') =
    progress_calls (calls v) ++ (if onProgress then [(end_, total)] else []) /\
  complete_calls (calls w') =
    complete_calls (calls v) ++
    (if end_ <? total then [] else if onComplete then [result w'] else []).

(** What holds in every reachable world when [count] is not positive and
    [data] is not empty. *)
Definition spinning (w : World) : Prop :=
  currentIndex w <= 0 /\
  handler_calls (calls w) = [] /\
  complete_calls (calls w) = [].

(** ** Properties *)

(** *** Lists of integers and arrays *)

Lemma zseq_length (n : nat) : forall i, length (zseq i n) = n.
Proof. induction n as [|n IH]; intros i; simpl; [reflexivity | now rewrite IH]. Qed.

Lemma zseq_app (n m : nat) :
  forall i, zseq i (n + m) = zseq i n ++ zseq (i + Z.of_nat n) m.
Proof.
  induction n as [|n IH]; intros i.
  - simpl. now rewrite Z.add_0_r.
  - cbn [zseq Nat.add app]. rewrite IH. do 3 f_equal. lia.
Qed.

Lemma zseq_snoc (n : nat) (i : Z) :
  zseq i (S n) = zseq i n ++ [i + Z.of_nat n].
Proof. replace (S n) with (n + 1)%nat by lia. now rewrite zseq_app. Qed.

Lemma zseq_In (n : nat) :
  forall i j, In j (zseq i n) <-> i <= j < i + Z.of_nat n.
Proof.
  induction n as [|n IH]; intros i j.
  - simpl. lia.
  - cbn [zseq In]. rewrite IH. lia.
Qed.

Lemma filled_length (n : nat) : length (filled n) = n.
Proof. unfold filled. now rewrite length_map, zseq_length. Qed.

Lemma filled_snoc (n : nat) :
  filled (S n) =
  filled n ++ [Some (handler (array_get undefined data (Z.of_nat n)) (Z.of_nat n))].
Proof. unfold filled. now rewrite zseq_snoc, map_app. Qed.

(** A write at the end of a filled array fills one more slot. *)
Lemma array_set_filled (n : nat) :
  array_set (filled n) (Z.of_nat n)
            (handler (array_get undefined data (Z.of_nat n)) (Z.of_nat n))
  = filled (S n).
Proof.
  unfold array_set.
  destruct (Z.ltb_spec (Z.of_nat n) 0) as [Hneg|_]; [lia|].
  rewrite Nat2Z.id, filled_length, Nat.ltb_irrefl, Nat.sub_diag.
  simpl. now rewrite filled_snoc.
Qed.

Lemma loop_result_filled (n : nat) :
  forall m, loop_result n (Z.of_nat m) (filled m) = filled (m + n).
Proof.
  induction n as [|n IH]; intros m.
  - simpl. now rewrite Nat.add_0_r.
  - cbn [loop_result]. rewrite array_set_filled.
    replace (Z.of_nat m + 1) with (Z.of_nat (S m)) by lia.
    rewrite IH. f_equal. lia.
Qed.

(** Reading a slot of a filled array. *)
Lemma filled_get (n : nat) (i : Z) :
  0 <= i < Z.of_nat n ->
  array_get None (filled n) i = Some (handler (array_get undefined data i) i).
Proof.
  intros Hi. unfold array_get at 1.
  destruct (Z.ltb_spec i 0) as [Hneg|_]; [lia|].
  unfold filled.
  assert (Hz : forall m k j, (k < m)%nat -> nth k (zseq j m) 0 = j + Z.of_nat k).
  { induction m as [|m IH]; intros k j Hk; [lia|].
    destruct k as [|k]; simpl; [lia|]. rewrite IH by lia. lia. }
  set (f := fun j => Some (handler (array_get undefined data j) j)).
  change None with (@None R).
  rewrite nth_indep with (d' := f 0) by (rewrite length_map, zseq_length; lia).
  rewrite map_nth, Hz by lia. unfold f. do 3 f_equal; lia.
Qed.

(** Inside the array, [data[i]] is the element at position [i]. *)
Lemma array_get_data (i : Z) :
  0 <= i < total ->
  nth_error data (Z.to_nat i) = Some (array_get undefined data i).
Proof.
  intros Hi. unfold array_get, total in *.
  destruct (Z.ltb_spec i 0) as [Hneg|_]; [lia|].
  apply nth_error_nth'. lia.
Qed.

(** *** The operations, as functions on worlds *)

Lemma for_iter_eq (n : nat) :
  forall i w,
    for_iter n i (fun i =>
      r <- call_handler (array_get undefined data i) i ;;
      modify (fun w => set_result (array_set (result w) i r) w)) w
    = (tt, set_result (loop_result n i (result w)) (log (loop_calls i n) w)).
Proof.
  induction n as [|n IH]; intros i w.
  - destruct w. unfold set_result, log, loop_calls. simpl.
    now rewrite app_nil_r.
  - cbn [for_iter]. unfold bind at 1. unfold bind at 1.
    unfold call_handler at 1. unfold modify at 1. rewrite IH.
    destruct w. unfold set_result, log, loop_calls. simpl.
    now rewrite <- app_assoc.
Qed.

Lemma processChunk_idle (w : World) :
  negb (isRunning w) || isPaused w = true -> processChunk w = (tt, w).
Proof.
  intros H. unfold processChunk, bind, gets. now rewrite H.
Qed.

Lemma processChunk_eq (w : World) :
  isRunning w = true -> isPaused w = false ->
  processChunk w = (tt, chunk_world w).
Proof.
  intros Hr Hp. unfold processChunk, bind at 1, gets at 1.
  unfold bind at 1, gets at 1. rewrite Hr, Hp. cbn [negb orb].
  unfold bind at 1, gets at 1. unfold bind at 1, for_range.
  rewrite for_iter_eq. fold total.
  unfold chunk_world, call_onProgress, call_onComplete, progress_call,
    complete_call.
  destruct w as [r p h c res t nid ts cs]. simpl in Hr, Hp. subst r p.
  cbn -[Z.min Z.to_nat loop_result loop_calls Z.ltb].
  destruct onProgress, onComplete;
    cbn -[Z.min Z.to_nat loop_result loop_calls Z.ltb];
    destruct (Z.min (c + count) total <? total);
    unfold modify, ret, setTimeout, set_isRunning, set_currentIndex,
      set_result, set_timeoutId, log;
    cbn -[Z.min Z.to_nat loop_result loop_calls Z.ltb];
    rewrite ?app_nil_r, <- ?app_assoc; reflexivity.
Qed.

Lemma start_eq (w : World) :
  exec start w = if isRunning w then w else chunk_world (fresh_run w).
Proof.
  unfold exec, start, bind at 1, gets at 1.
  destruct (isRunning w) eqn:Hr; [reflexivity|].
  unfold bind, modify. rewrite processChunk_eq by reflexivity. reflexivity.
Qed.

Lemma pause_eq (w : World) :
  exec pause w =
  if negb (isRunning w) || isPaused w then w
  else mkWorld (isRunning w) true None (currentIndex w) (result w) (now w)
               (nextTimerId w) (cancelled (timeoutId w) (timers w)) (calls w).
Proof.
  unfold exec, pause, bind at 1, gets at 1. unfold bind at 1, gets at 1.
  destruct (negb (isRunning w) || isPaused w) eqn:Hg; [reflexivity|].
  destruct w as [r p h c res t nid ts cs]. simpl in *.
  destruct h; reflexivity.
Qed.

Lemma resume_eq (w : World) :
  exec resume w =
  if negb (isRunning w) || negb (isPaused w) then w
  else chunk_world (set_isPaused false w).
Proof.
  unfold exec, resume, bind at 1, gets at 1. unfold bind at 1, gets at 1.
  destruct (negb (isRunning w) || negb (isPaused w)) eqn:Hg; [reflexivity|].
  apply orb_false_elim in Hg as [Hr _]. apply negb_false_iff in Hr.
  unfold bind, modify. now rewrite processChunk_eq.
Qed.

Lemma stop_eq (w : World) :
  exec stop w =
  if negb (isRunning w) then w
  else mkWorld false false None 0 [] (now w) (nextTimerId w)
               (cancelled (timeoutId w) (timers w)) (calls w).
Proof.
  unfold exec, stop, bind at 1, gets at 1.
  destruct (negb (isRunning w)) eqn:Hg; [reflexivity|].
  destruct w as [r p h c res t nid ts cs]. simpl in *.
  destruct h; reflexivity.
Qed.

Lemma fire_eq (id : nat) (w : World) :
  exec (fire id) w =
  match find (fun t => (tid t =? id)%nat) (timers w) with
  | Some t =>
      if due t <=? now w
      then exec processChunk (set_timers (cancelled (Some (tid t)) (timers w)) w)
      else w
  | None => w
  end.
Proof.
  unfold exec, fire.
  destruct (find _ (timers w)) as [t|]; [|reflexivity].
  destruct (due t <=? now w); reflexivity.
Qed.

Lemma run_app (l1 l2 : list Action) (w : World) :
  run (l1 ++ l2) w = run l2 (run l1 w).
Proof. unfold run. apply fold_left_app. Qed.

Lemma run_cons (a : Action) (l : list Action) (w : World) :
  run (a :: l) w = run l (step a w).
Proof. reflexivity. Qed.

(** *** The invariant holds in every reachable world *)

Lemma chunk_result (cur : Z) :
  cur <= total -> (0 <= count -> 0 <= cur) -> (count < 0 -> cur <= 0) ->
  loop_result (Z.to_nat (Z.min (cur + count) total - cur)) cur
              (filled (Z.to_nat cur))
  = filled (Z.to_nat (Z.min (cur + count) total)).
Proof.
  intros Hu Hl Hn.
  destruct (Z.lt_ge_cases count 0) as [Hc|Hc].
  - replace (Z.to_nat (Z.min (cur + count) total - cur)) with O by lia.
    simpl. f_equal. lia.
  - specialize (Hl Hc).
    destruct (Z_of_nat_complete cur Hl) as [m ->].
    rewrite Nat2Z.id, loop_result_filled. f_equal. lia.
Qed.

Lemma chunk_world_wf (w : World) :
  isRunning w = true -> isPaused w = false -> timers w = [] ->
  currentIndex w <= total ->
  (0 <= count -> 0 <= currentIndex w) ->
  (count < 0 -> currentIndex w <= 0) ->
  result w = filled (Z.to_nat (currentIndex w)) ->
  wf (chunk_world w).
Proof.
  intros Hr Hp Ht Hu Hl Hn Hres. unfold chunk_world.
  rewrite Hres, chunk_result, Hp, Ht by assumption.
  destruct (Z.ltb_spec (Z.min (currentIndex w + count) total) total) as [He|He];
    constructor; cbn [isRunning isPaused timers timeoutId currentIndex result
                      andb negb app tid];
    try discriminate; try reflexivity; try lia; eauto.
Qed.

Lemma wf_init : wf init.
Proof.
  constructor; cbn; try discriminate; try reflexivity; unfold total; lia.
Qed.

Lemma wf_inactive_timers (w : World) :
  wf w -> isRunning w && negb (isPaused w) = false -> timers w = [].
Proof. intros H Hg. pose proof (wf_timers w H) as Ht. now rewrite Hg in Ht. Qed.

Lemma wf_fresh_run (w : World) :
  wf w -> isRunning w = false -> wf (chunk_world (fresh_run w)).
Proof.
  intros H Hr. apply chunk_world_wf; cbn; try reflexivity; try lia.
  - apply wf_inactive_timers; [assumption | now rewrite Hr].
  - unfold total. lia.
Qed.

Lemma wf_resumed (w : World) :
  wf w -> isRunning w = true -> isPaused w = true ->
  wf (chunk_world (set_isPaused false w)).
Proof.
  intros H Hr Hp. destruct H.
  apply chunk_world_wf; cbn; try assumption; try reflexivity.
  now rewrite Hr, Hp in wf_timers0.
Qed.

(** Cancelling the handle of a reachable world empties the timer queue. *)
Lemma wf_cancelled (w : World) :
  wf w -> isRunning w = true -> cancelled (timeoutId w) (timers w) = [].
Proof.
  intros H Hr. pose proof (wf_timers w H) as Ht. rewrite Hr in Ht.
  destruct (isPaused w); cbn in Ht.
  - rewrite Ht. destruct (timeoutId w); reflexivity.
  - destruct Ht as (t & -> & ->). cbn. now rewrite Nat.eqb_refl.
Qed.

Lemma wf_step (a : Action) (w : World) : wf w -> wf (step a w).
Proof.
  intros H. destruct a; cbn [step].
  - rewrite start_eq. destruct (isRunning w) eqn:Hr; [assumption|].
    now apply wf_fresh_run.
  - rewrite pause_eq.
    destruct (isRunning w) eqn:Hr, (isPaused w) eqn:Hp; cbn; try assumption.
    pose proof (wf_cancelled w H Hr) as Hc. destruct H.
    constructor; cbn; rewrite ?Hr in *; auto.
  - rewrite resume_eq.
    destruct (isRunning w) eqn:Hr, (isPaused w) eqn:Hp; cbn; try assumption.
    now apply wf_resumed.
  - rewrite stop_eq. destruct (isRunning w) eqn:Hr; cbn; [|assumption].
    pose proof (wf_cancelled w H Hr) as Hc.
    constructor; cbn; auto; try discriminate; try lia. unfold total; lia.
  - destruct H. constructor; assumption.
  - rewrite fire_eq.
    pose proof (wf_timers w H) as Ht.
    destruct (isRunning w && negb (isPaused w)) eqn:Hg.
    + destruct Ht as (t & Hts & Hid). apply andb_prop in Hg as [Hr Hp].
      apply negb_true_iff in Hp. rewrite Hts. cbn [find].
      destruct (tid t =? id)%nat; [|assumption].
      destruct (due t <=? now w); [|assumption].
      cbn [cancelled filter]. rewrite Nat.eqb_refl. cbn [negb].
      unfold exec. rewrite processChunk_eq by assumption. cbn [snd].
      destruct H. apply chunk_world_wf; cbn; auto.
    + rewrite Ht. assumption.
Qed.

Lemma wf_run (acts : list Action) : forall w, wf w -> wf (run acts w).
Proof.
  induction acts as [|a acts IH]; intros w H; [assumption|].
  rewrite run_cons. apply IH, wf_step, H.
Qed.

Lemma reachable_wf (w : World) : reachable w -> wf w.
Proof. intros [acts ->]. apply wf_run, wf_init. Qed.

Lemma reachable_step (a : Action) (w : World) :
  reachable w -> reachable (step a w).
Proof.
  intros [acts ->]. exists (acts ++ [a]). now rewrite run_app.
Qed.

Lemma reachable_run (acts : list Action) (w : World) :
  reachable w -> reachable (run acts w).
Proof.
  intros [acts0 ->]. exists (acts0 ++ acts). now rewrite run_app.
Qed.

(** *** The calls of a run *)

Lemma run_calls_S (k : nat) :
  run_calls (S k) = run_calls k ++ chunk_calls (S k).
Proof.
  unfold run_calls. rewrite seq_S, flat_map_app. cbn [flat_map Nat.add].
  now rewrite app_nil_r.
Qed.

Lemma run_body_S (k : nat) : run_body (S k) = run_body k ++ chunk_body (S k).
Proof.
  unfold run_body. rewrite seq_S, flat_map_app. cbn [flat_map Nat.add].
  now rewrite app_nil_r.
Qed.

Lemma cursor_at_nonfinal (j : nat) :
  Z.of_nat j * count < total -> cursor_at j = Z.of_nat j * count.
Proof. unfold cursor_at. lia. Qed.

Lemma chunk_tail_nonfinal (j : nat) :
  Z.of_nat j * count < total -> chunk_tail j = [].
Proof.
  intros H. unfold chunk_tail. rewrite cursor_at_nonfinal by assumption.
  destruct (Z.ltb_spec (Z.of_nat j * count) total); [reflexivity | lia].
Qed.

Lemma chunk_tail_final (j : nat) :
  total <= Z.of_nat j * count ->
  chunk_tail j = complete_call (filled (length data)).
Proof.
  intros H. unfold chunk_tail, cursor_at.
  destruct (Z.ltb_spec (Z.min (Z.of_nat j * count) total) total);
    [lia | reflexivity].
Qed.

(** As long as no chunk step was the last one, the completion callback
    was not called. *)
Lemma run_calls_nonfinal (k : nat) :
  (forall j, (1 <= j <= k)%nat -> Z.of_nat j * count < total) ->
  run_calls k = run_body k.
Proof.
  induction k as [|k IH]; intros H; [reflexivity|].
  rewrite run_calls_S, run_body_S, IH by (intros j Hj; apply H; lia).
  unfold chunk_calls. rewrite chunk_tail_nonfinal by (apply H; lia).
  now rewrite app_nil_r.
Qed.

Lemma run_calls_split (k : nat) :
  (1 <= k)%nat ->
  (forall j, (1 <= j < k)%nat -> Z.of_nat j * count < total) ->
  run_calls k = run_body k ++ chunk_tail k.
Proof.
  intros Hk H. destruct k as [|k]; [lia|].
  rewrite run_calls_S, run_body_S, run_calls_nonfinal
    by (intros j Hj; apply H; lia).
  unfold chunk_calls. now rewrite app_assoc.
Qed.

Lemma complete_calls_app (l1 l2 : list Call) :
  complete_calls (l1 ++ l2) = complete_calls l1 ++ complete_calls l2.
Proof. apply flat_map_app. Qed.

Lemma progress_calls_app (l1 l2 : list Call) :
  progress_calls (l1 ++ l2) = progress_calls l1 ++ progress_calls l2.
Proof. apply flat_map_app. Qed.

Lemma handler_calls_app (l1 l2 : list Call) :
  handler_calls (l1 ++ l2) = handler_calls l1 ++ handler_calls l2.
Proof. apply flat_map_app. Qed.

Lemma complete_calls_loop (i : Z) (n : nat) :
  complete_calls (loop_calls i n) = [].
Proof.
  unfold loop_calls. induction (zseq i n) as [|j l IH]; [reflexivity|exact IH].
Qed.

Lemma progress_calls_loop (i : Z) (n : nat) :
  progress_calls (loop_calls i n) = [].
Proof.
  unfold loop_calls. induction (zseq i n) as [|j l IH]; [reflexivity|exact IH].
Qed.

Lemma handler_calls_loop (i : Z) (n : nat) :
  handler_calls (loop_calls i n) =
  map (fun j => (array_get undefined data j, j)) (zseq i n).
Proof.
  unfold loop_calls. induction (zseq i n) as [|j l IH]; [reflexivity|].
  cbn. now rewrite <- IH.
Qed.

Lemma complete_calls_progress (c : Z) : complete_calls (progress_call c) = [].
Proof. unfold progress_call. now destruct onProgress. Qed.

Lemma handler_calls_progress (c : Z) : handler_calls (progress_call c) = [].
Proof. unfold progress_call. now destruct onProgress. Qed.

Lemma handler_calls_complete (r : list (option R)) :
  handler_calls (complete_call r) = [].
Proof. unfold complete_call. now destruct onComplete. Qed.

Lemma progress_calls_complete (r : list (option R)) :
  progress_calls (complete_call r) = [].
Proof. unfold complete_call. now destruct onComplete. Qed.

Lemma complete_calls_body (k : nat) : complete_calls (run_body k) = [].
Proof.
  induction k as [|k IH]; [reflexivity|].
  rewrite run_body_S, complete_calls_app, IH. unfold chunk_body.
  now rewrite complete_calls_app, complete_calls_loop, complete_calls_progress.
Qed.

Lemma progress_calls_body (k : nat) :
  onProgress = true ->
  progress_calls (run_body k) = map (fun j => (cursor_at j, total)) (seq 1 k).
Proof.
  intros Hp. induction k as [|k IH]; [reflexivity|].
  rewrite run_body_S, progress_calls_app, IH, seq_S, map_app.
  f_equal. unfold chunk_body.
  rewrite progress_calls_app, progress_calls_loop. unfold progress_call.
  now rewrite Hp.
Qed.

(** With a positive [count], the cursor grows at every chunk step. *)
Lemma cursor_at_increasing (k i j : nat) :
  0 < count ->
  (forall j, (1 <= j < k)%nat -> Z.of_nat j * count < total) ->
  (1 <= i < j)%nat -> (j <= k)%nat -> cursor_at i < cursor_at j.
Proof.
  intros Hc H Hij Hjk.
  assert (Hi : Z.of_nat i * count < total) by (apply H; lia).
  rewrite (cursor_at_nonfinal i Hi). unfold cursor_at.
  apply Z.min_glb_lt; [|assumption]. nia.
Qed.

(** With a [count] that is not negative, the first [k] chunk steps call
    [handler] on the indices below the cursor, in order. *)
Lemma handler_calls_body (k : nat) :
  0 <= count ->
  (forall j, (1 <= j < k)%nat -> Z.of_nat j * count < total) ->
  handler_calls (run_body k) =
  map (fun j => (array_get undefined data j, j))
      (zseq 0 (Z.to_nat (cursor_at k))).
Proof.
  intros Hc. induction k as [|k IH]; intros H.
  - unfold cursor_at. replace (Z.to_nat _) with O by lia. reflexivity.
  - rewrite run_body_S, handler_calls_app, IH by (intros j Hj; apply H; lia).
    unfold chunk_body.
    rewrite handler_calls_app, handler_calls_loop, handler_calls_progress,
      app_nil_r, <- map_app.
    assert (Hk : cursor_at k = Z.of_nat k * count /\ Z.of_nat k * count <= total).
    { destruct k as [|k'].
      - unfold cursor_at, total. lia.
      - assert (Z.of_nat (S k') * count < total) by (apply H; lia).
        unfold cursor_at. lia. }
    destruct Hk as [Hk Hle]. rewrite Hk.
    replace (Z.of_nat (S k - 1)) with (Z.of_nat k) by lia.
    assert (Hge : Z.of_nat k * count <= cursor_at (S k))
      by (unfold cursor_at; nia).
    replace (Z.to_nat (cursor_at (S k)))
      with (Z.to_nat (Z.of_nat k * count)
            + Z.to_nat (cursor_at (S k) - Z.of_nat k * count))%nat by nia.
    rewrite zseq_app. do 3 f_equal. nia.
Qed.

(** *** The invariant of a run *)

Lemma wf_dense (w : World) : wf w -> dense w.
Proof. intros []. constructor; assumption. Qed.

Lemma dense_fresh_run (w : World) : dense (fresh_run w).
Proof. constructor; cbn; try reflexivity; try lia. unfold total; lia. Qed.

Lemma dense_resumed (w : World) : dense w -> dense (set_isPaused false w).
Proof. intros []. constructor; assumption. Qed.

Lemma chunk_world_step (k : nat) (w : World) :
  dense w -> currentIndex w = Z.of_nat k * count ->
  calls (chunk_world w) = calls w ++ chunk_calls (S k) /\
  currentIndex (chunk_world w) = cursor_at (S k) /\
  isRunning (chunk_world w) = (cursor_at (S k) <? total).
Proof.
  intros H Hcur. unfold chunk_world, chunk_calls, chunk_body, chunk_tail.
  rewrite (d_result w H), chunk_result
    by (try apply (d_upper w H); try apply (d_lower w H); apply (d_neg w H)).
  replace (Z.of_nat (S k - 1) * count) with (currentIndex w)
    by (rewrite Hcur; f_equal; lia).
  replace (cursor_at (S k)) with (Z.min (currentIndex w + count) total)
    by (unfold cursor_at; rewrite Hcur; f_equal; lia).
  destruct (Z.ltb_spec (Z.min (currentIndex w + count) total) total) as [He|He];
    cbn [calls currentIndex isRunning].
  - now rewrite app_nil_r.
  - replace (Z.to_nat (Z.min (currentIndex w + count) total)) with (length data)
      by (unfold total in *; lia).
    rewrite <- !app_assoc. auto.
Qed.

Lemma run_inv_chunk (base : list Call) (s s' : bool) (k : nat) (w v : World) :
  dense v -> run_inv base s k w ->
  isRunning w = true -> currentIndex v = currentIndex w -> calls v = calls w ->
  run_inv base s' (S k) (chunk_world v).
Proof.
  intros Hv Hinv Hr Hcur Hcalls.
  destruct (ri_active Hinv Hr) as [Hk Hlt].
  destruct (chunk_world_step k v Hv) as (Hc & Hi & Hrun); [congruence|].
  constructor.
  - lia.
  - rewrite Hc, Hcalls, (ri_calls Hinv), run_calls_S. now rewrite app_assoc.
  - intros j Hj. destruct (Nat.eq_dec j k) as [->|Hne]; [assumption|].
    apply (ri_before Hinv). lia.
  - intros Hr'. rewrite Hrun in Hr'. apply Z.ltb_lt in Hr'.
    rewrite Hi. unfold cursor_at in *. lia.
  - intros Hr' _. rewrite Hrun in Hr'. apply Z.ltb_ge in Hr'.
    unfold cursor_at in Hr'. lia.
Qed.

Lemma run_inv_same (base : list Call) (s s' : bool) (k : nat) (w v : World) :
  run_inv base s k w ->
  isRunning v = isRunning w -> currentIndex v = currentIndex w ->
  calls v = calls w -> (s' = false -> s = false) ->
  run_inv base s' k v.
Proof.
  intros [] Hr Hc Hcalls Hs.
  constructor; rewrite ?Hr, ?Hc, ?Hcalls; auto.
Qed.

Lemma run_inv_start (w0 : World) :
  isRunning w0 = false -> run_inv (calls w0) false 1 (exec start w0).
Proof.
  intros Hr. rewrite start_eq, Hr.
  destruct (chunk_world_step 0 _ (dense_fresh_run w0)) as (Hc & Hi & Hrun);
    [reflexivity|].
  constructor.
  - lia.
  - rewrite Hc. cbn. now rewrite app_nil_r.
  - intros j Hj. lia.
  - intros Hr'. rewrite Hrun in Hr'. apply Z.ltb_lt in Hr'.
    rewrite Hi. unfold cursor_at in *. lia.
  - intros Hr' _. rewrite Hrun in Hr'. apply Z.ltb_ge in Hr'.
    unfold cursor_at in Hr'. lia.
Qed.

Lemma run_inv_step (base : list Call) (s : bool) (k : nat) (a : Action) (w : World) :
  wf w -> run_inv base s k w -> is_start a = false ->
  exists k', run_inv base (s || is_stop a) k' (step a w).
Proof.
  intros H Hinv Ha. destruct a; try discriminate; cbn [step is_stop];
    rewrite ?orb_false_r.
  - (* pause *)
    exists k. rewrite pause_eq.
    destruct (negb (isRunning w) || isPaused w); [assumption|].
    apply run_inv_same with (s := s) (w := w); auto.
  - (* resume *)
    rewrite resume_eq.
    destruct (isRunning w) eqn:Hr, (isPaused w) eqn:Hp; cbn;
      try (exists k; assumption).
    exists (S k). apply run_inv_chunk with (s := s) (w := w); auto.
    apply dense_resumed, wf_dense, H.
  - (* stop *)
    exists k. rewrite stop_eq. destruct (isRunning w) eqn:Hr; cbn.
    + destruct (ri_active Hinv Hr) as [_ Hlt].
      constructor; cbn; try discriminate.
      * apply (ri_pos Hinv).
      * apply (ri_calls Hinv).
      * apply (ri_before Hinv).
      * intros _ Hs. rewrite orb_true_r in Hs. discriminate.
    + apply run_inv_same with (s := s) (w := w); auto. intros Hs.
      rewrite orb_true_r in Hs. discriminate.
  - (* tick *)
    exists k. apply run_inv_same with (s := s) (w := w); auto.
  - (* fire *)
    rewrite fire_eq. pose proof (wf_timers w H) as Ht.
    destruct (isRunning w && negb (isPaused w)) eqn:Hg.
    + destruct Ht as (t & Hts & Hid). apply andb_prop in Hg as [Hr Hp].
      apply negb_true_iff in Hp. rewrite Hts. cbn [find].
      destruct (tid t =? id)%nat; [|exists k; assumption].
      destruct (due t <=? now w); [|exists k; assumption].
      unfold exec. rewrite processChunk_eq by assumption. cbn [snd].
      exists (S k). apply run_inv_chunk with (s := s) (w := w); auto.
      destruct (wf_dense w H). constructor; assumption.
    + rewrite Ht. exists k. assumption.
Qed.

Lemma run_inv_run (base : list Call) (acts : list Action) :
  forall (s : bool) (k : nat) (w : World),
    wf w -> run_inv base s k w -> no_start acts = true ->
    exists k', run_inv base (s || existsb is_stop acts) k' (run acts w).
Proof.
  induction acts as [|a acts IH]; intros s k w H Hinv Hns.
  - exists k. cbn. now rewrite orb_false_r.
  - cbn in Hns. apply andb_prop in Hns as [Ha Hns].
    apply negb_true_iff in Ha.
    destruct (run_inv_step _ _ _ a w H Hinv Ha) as [k1 H1].
    destruct (IH _ _ _ (wf_step a w H) H1 Hns) as [k2 H2].
    exists k2. rewrite run_cons. cbn [existsb]. now rewrite orb_assoc.
Qed.

(** The calls of a run started in a reachable, inactive world. *)
Lemma run_shape (w0 : World) (acts : list Action) :
  wf w0 -> isRunning w0 = false -> no_start acts = true ->
  exists k,
    run_inv (calls w0) (existsb is_stop acts) k (run acts (exec start w0)).
Proof.
  intros H Hr Hns.
  destruct (run_inv_run _ acts _ _ _ (wf_step Start w0 H) (run_inv_start w0 Hr) Hns)
    as [k Hk].
  exists k. exact Hk.
Qed.

(** *** Worlds in which nothing can happen *)

Lemma set_now_now (w : World) : set_now (now w) w = w.
Proof. now destruct w. Qed.

(** With no pending timer, the host can only let time pass; if moreover
    the scheduler is inactive, only [start] has an effect. *)
Lemma still_step (a : Action) (w : World) :
  timers w = [] ->
  is_host a = true \/ (isRunning w = false /\ is_start a = false) ->
  step a w = set_now (now (step a w)) w /\ now w <= now (step a w).
Proof.
  intros Ht Ha.
  assert (Hw : w = set_now (now w) w /\ now w <= now w)
    by (rewrite set_now_now; split; [reflexivity | lia]).
  destruct a; cbn [step];
    try (destruct Ha as [Ha|[Hr Ha]]; try discriminate;
         rewrite ?pause_eq, ?resume_eq, ?stop_eq, ?Hr; exact Hw).
  - cbn. split; [reflexivity | lia].
  - rewrite fire_eq, Ht. exact Hw.
Qed.

Lemma still_run (acts : list Action) :
  forall w,
    timers w = [] ->
    forallb is_host acts = true \/ (isRunning w = false /\ no_start acts = true) ->
    run acts w = set_now (now (run acts w)) w /\ now w <= now (run acts w).
Proof.
  induction acts as [|a acts IH]; intros w Ht Ha.
  - cbn. rewrite set_now_now. split; [reflexivity | lia].
  - rewrite run_cons.
    assert (Ha1 : is_host a = true \/ (isRunning w = false /\ is_start a = false)).
    { destruct Ha as [Ha|[Hr Ha]]; cbn in Ha; apply andb_prop in Ha as [Ha _];
        [left | right; split; [|apply negb_true_iff]]; assumption. }
    destruct (still_step a w Ht Ha1) as [E Hle].
    assert (Ha2 : forallb is_host acts = true \/
                  (isRunning (step a w) = false /\ no_start acts = true)).
    { destruct Ha as [Ha|[Hr Ha]]; cbn in Ha; apply andb_prop in Ha as [_ Ha];
        [left | right; split]; try assumption. now rewrite E. }
    destruct (IH (step a w)) as [E' Hle']; [now rewrite E | assumption |].
    split; [|lia]. rewrite E' at 1. rewrite E. reflexivity.
Qed.

(** With no pending timer, advancing the fake clock runs nothing. *)
Lemma advance_idle (fuel : nat) (ms : Z) (w : World) :
  timers w = [] ->
  advanceTimersByTime fuel ms w = Some (set_now (now w + Z.max 0 ms) w).
Proof.
  intros Ht. unfold advanceTimersByTime.
  destruct fuel; cbn [advanceTo]; now rewrite Ht.
Qed.

(** *** The elements and their results *)

Lemma handler_calls_data :
  map (fun j => (array_get undefined data j, j)) (zseq 0 (length data))
  = combine data (zseq 0 (length data)).
Proof.
  assert (H : forall l pre,
             map (fun j => (array_get undefined (pre ++ l) j, j))
                 (zseq (Z.of_nat (length pre)) (length l))
             = combine l (zseq (Z.of_nat (length pre)) (length l))).
  { induction l as [|x l IH]; intros pre; [reflexivity|].
    cbn [length zseq map combine]. f_equal.
    - f_equal. unfold array_get.
      destruct (Z.ltb_spec (Z.of_nat (length pre)) 0); [lia|].
      rewrite Nat2Z.id, app_nth2, Nat.sub_diag by lia. reflexivity.
    - specialize (IH (pre ++ [x])).
      rewrite <- app_assoc, length_app in IH. cbn [app length] in IH.
      replace (Z.of_nat (length pre) + 1) with (Z.of_nat (length pre + 1))
        by lia.
      exact IH. }
  exact (H data []).
Qed.

Lemma filled_nth_error (n i : nat) (x : T) :
  (n <= length data)%nat -> nth_error data i = Some x -> (i < n)%nat ->
  nth_error (filled n) i = Some (Some (handler x (Z.of_nat i))).
Proof.
  intros Hn Hx Hi.
  assert (Hg : array_get None (filled n) (Z.of_nat i)
               = Some (handler (array_get undefined data (Z.of_nat i)) (Z.of_nat i)))
    by (apply filled_get; lia).
  assert (Hd : array_get undefined data (Z.of_nat i) = x).
  { pose proof (array_get_data (Z.of_nat i)) as Hd.
    rewrite Nat2Z.id, Hx in Hd. unfold total in Hd.
    assert (Hlt : 0 <= Z.of_nat i < Z.of_nat (length data)) by lia.
    specialize (Hd Hlt). now injection Hd. }
  rewrite Hd in Hg. rewrite <- Hg. unfold array_get.
  destruct (Z.ltb_spec (Z.of_nat i) 0); [lia|]. rewrite Nat2Z.id.
  apply nth_error_nth'. now rewrite filled_length.
Qed.

(** *** The handle of the timer *)

Lemma chunk_world_keeps_handle (v : World) :
  timeoutId v <> None -> timeoutId (chunk_world v) <> None.
Proof.
  intros H. unfold chunk_world.
  destruct (_ <? _); cbn [timeoutId]; [discriminate | exact H].
Qed.

Lemma processChunk_keeps_handle (v : World) :
  timeoutId v <> None -> timeoutId (exec processChunk v) <> None.
Proof.
  intros H. unfold exec.
  destruct (negb (isRunning v) || isPaused v) eqn:Hg.
  - rewrite processChunk_idle by exact Hg. exact H.
  - apply orb_false_elim in Hg as [Hr Hp]. apply negb_false_iff in Hr.
    rewrite processChunk_eq by assumption. now apply chunk_world_keeps_handle.
Qed.

Lemma step_keeps_handle (a : Action) (v : World) :
  a <> Pause -> a <> Stop ->
  timeoutId v <> None -> timeoutId (step a v) <> None.
Proof.
  intros Hp Hs H. destruct a; cbn [step]; try congruence.
  - rewrite start_eq. destruct (isRunning v); [exact H|].
    now apply chunk_world_keeps_handle.
  - rewrite resume_eq.
    destruct (negb (isRunning v) || negb (isPaused v)); [exact H|].
    now apply chunk_world_keeps_handle.
  - exact H.
  - rewrite fire_eq. destruct (find _ (timers v)) as [t|]; [|exact H].
    destruct (due t <=? now v); [|exact H].
    now apply processChunk_keeps_handle.
Qed.

(** ** The claims *)

(** C8.  [start()] called while the scheduler is Running or Paused
    ([isRunning] is true in both) changes nothing: the world after the call
    is the world before it, so the cursor, the results, the pending timer,
    the two flags and the log of the calls to [handler] are what they were,
    and the call returns normally.  In particular a second [start()] made
    while the run begun by the first is still active has no effect. *)
Theorem start_while_active_is_noop (w : World) :
  isRunning w = true ->
  start w = (tt, w) /\
  handler_calls (calls (exec start w)) = handler_calls (calls w) /\
  (forall w0, exec start w0 = w -> exec start (exec start w0) = exec start w0).
Proof.
  intros Hr.
  assert (E : start w = (tt, w))
    by (unfold start, bind at 1, gets at 1; now rewrite Hr).
  split; [exact E|]. unfold exec. rewrite E. cbn [snd].
  split; [reflexivity|]. intros w0 ->. unfold exec. now rewrite E.
Qed.

(** C10.  [isPaused] implies [isRunning]: both flags are false in the
    initial world, and the chunk step, the four operations, time passing
    and timers firing all preserve the implication; hence in every world
    reached from one that satisfies it (the initial world among them) a
    scheduler whose [isRunning] is false has [isPaused] false. *)
Theorem flags_invariant (w : World) :
  flags_ok w ->
  (isRunning init = false /\ isPaused init = false) /\
  flags_ok (exec processChunk w) /\
  (forall a, flags_ok (step a w)) /\
  (forall acts,
     flags_ok (run acts w) /\
     (isRunning (run acts w) = false -> isPaused (run acts w) = false)).
Proof.
  assert (Hchunk : forall v, flags_ok v -> flags_ok (exec processChunk v)).
  { intros v Hv. unfold exec.
    destruct (negb (isRunning v) || isPaused v) eqn:Hg.
    - now rewrite processChunk_idle.
    - apply orb_false_elim in Hg as [Hr Hp]. apply negb_false_iff in Hr.
      rewrite processChunk_eq by assumption. unfold flags_ok, chunk_world.
      destruct (_ <? _); cbn; congruence. }
  assert (Hstep : forall a v, flags_ok v -> flags_ok (step a v)).
  { intros a v Hv. destruct a; cbn [step].
    - rewrite start_eq. destruct (isRunning v) eqn:Hr; [assumption|].
      unfold flags_ok, chunk_world. destruct (_ <? _); cbn; congruence.
    - rewrite pause_eq.
      destruct (negb (isRunning v) || isPaused v) eqn:Hg; [assumption|].
      apply orb_false_elim in Hg as [Hr _]. apply negb_false_iff in Hr.
      unfold flags_ok. cbn. auto.
    - rewrite resume_eq.
      destruct (negb (isRunning v) || negb (isPaused v)); [assumption|].
      unfold flags_ok, chunk_world. destruct (_ <? _); cbn; congruence.
    - rewrite stop_eq. destruct (negb (isRunning v)); [assumption|].
      unfold flags_ok. cbn. congruence.
    - exact Hv.
    - rewrite fire_eq. destruct (find _ _) as [t|]; [|assumption].
      destruct (due t <=? now v); [|assumption]. apply Hchunk. exact Hv. }
  assert (Hrun : forall acts v, flags_ok v -> flags_ok (run acts v)).
  { induction acts as [|a acts IH]; intros v Hv; [assumption|].
    rewrite run_cons. apply IH, Hstep, Hv. }
  intros Hw. repeat split; auto.
  intros Hr. specialize (Hrun acts w Hw). unfold flags_ok in Hrun.
  destruct (isPaused (run acts w)); [|reflexivity].
  rewrite Hrun in Hr by reflexivity. discriminate.
Qed.

(** C9.  When [data.length <= count], [start()] called on an inactive
    scheduler handles every element in its own chunk step and completes
    within the call: [handler] is called on each element in index order,
    then [onProgress(len, len)], then [onComplete] with the filled array;
    [setTimeout] is not called (the handle counter of the host and the
    timer queue are untouched), no timer is pending afterwards and nothing
    that the host does later makes a call.  The calls to [handler] made by
    the call are those on the elements of [data] paired with their
    indices, in index order, and the array holds [handler(data[i], i)] at
    every index [i].  With an empty [data], the calls are
    [onProgress(0, 0)] and [onComplete([])], each made once if supplied,
    and [handler] is not called. *)
Theorem single_chunk_run (w : World) :
  reachable w -> isRunning w = false -> total <= count ->
  let w' := exec start w in
  isRunning w' = false /\
  currentIndex w' = total /\
  result w' = filled (length data) /\
  calls w' = calls w ++ loop_calls 0 (length data) ++
             progress_call total ++ complete_call (filled (length data)) /\
  nextTimerId w' = nextTimerId w /\
  timers w' = [] /\
  (forall acts, forallb is_host acts = true -> calls (run acts w') = calls w') /\
  handler_calls (calls w')
  = handler_calls (calls w) ++ combine data (zseq 0 (length data)) /\
  length (result w') = length data /\
  (forall i x, nth_error data i = Some x ->
               nth_error (result w') i = Some (Some (handler x (Z.of_nat i)))) /\
  (data = [] ->
   calls w' = calls w ++ progress_call 0 ++ complete_call [] /\
   handler_calls (calls w') = handler_calls (calls w)).
Proof.
  intros Hreach Hr Hc w'.
  pose proof (reachable_wf w Hreach) as Hwf.
  pose proof (wf_inactive_timers w Hwf) as Ht. rewrite Hr in Ht.
  specialize (Ht eq_refl).
  assert (Hpos : 0 <= total) by (unfold total; lia).
  assert (E : w' = mkWorld false false (timeoutId w) total (filled (length data))
                (now w) (nextTimerId w) [] 
                (calls w ++ loop_calls 0 (length data) ++
                 progress_call total ++ complete_call (filled (length data)))).
  { subst w'. rewrite start_eq, Hr. unfold chunk_world, fresh_run.
    cbn [currentIndex result calls isPaused timeoutId now nextTimerId timers].
    replace (Z.min (0 + count) total) with total by lia.
    assert (L : loop_result (length data) 0 [] = filled (length data))
      by exact (loop_result_filled (length data) 0).
    rewrite Z.ltb_irrefl, Z.sub_0_r.
    replace (Z.to_nat total) with (length data) by (unfold total; lia).
    rewrite L, Ht. now rewrite <- !app_assoc. }
  assert (Hidle : forall acts,
             forallb is_host acts = true -> calls (run acts w') = calls w').
  { intros acts Ha.
    destruct (still_run acts w') as [E' _];
      [rewrite E; reflexivity | left; assumption |].
    now rewrite E'. }
  clearbody w'. subst w'.
  cbn [isRunning currentIndex result calls nextTimerId timers] in *.
  repeat (split; [reflexivity|]). split; [exact Hidle|].
  split.
  { rewrite !handler_calls_app, handler_calls_loop, handler_calls_progress,
      handler_calls_complete, !app_nil_r, handler_calls_data. reflexivity. }
  split; [apply filled_length|]. split.
  { intros i x Hx. apply filled_nth_error; [lia | exact Hx |].
    apply nth_error_Some. congruence. }
  intros Hd. unfold total. rewrite Hd. cbn [length loop_calls zseq map app].
  split; [reflexivity|].
  rewrite !handler_calls_app, handler_calls_progress, handler_calls_complete.
  now rewrite app_nil_r.
Qed.

(** C6.  [pause()] called while Running cancels the pending continuation:
    the timer queue, which held exactly the timer named by [timeoutId], is
    empty after the call and the handle is null; the cursor, the results
    and the log are untouched.  From then on, whatever the host does (time
    passing by any amount, attempts to fire any handle) changes nothing but
    the clock: the cursor does not move and neither [handler] nor a
    callback is called.  [pause()] in a world that is not Running (inactive
    or already paused) returns that world. *)
Theorem pause_cancels_continuation (w : World) :
  reachable w -> isRunning w = true -> isPaused w = false ->
  (exists t, timers w = [t] /\ timeoutId w = Some (tid t)) /\
  isRunning (exec pause w) = true /\
  isPaused (exec pause w) = true /\
  timers (exec pause w) = [] /\
  timeoutId (exec pause w) = None /\
  currentIndex (exec pause w) = currentIndex w /\
  result (exec pause w) = result w /\
  calls (exec pause w) = calls w /\
  (forall acts,
     forallb is_host acts = true ->
     run acts (exec pause w) =
       set_now (now (run acts (exec pause w))) (exec pause w) /\
     currentIndex (run acts (exec pause w)) = currentIndex w /\
     calls (run acts (exec pause w)) = calls w) /\
  (forall fuel ms,
     advanceTimersByTime fuel ms (exec pause w) =
       Some (set_now (now w + Z.max 0 ms) (exec pause w))) /\
  (forall v, negb (isRunning v) || isPaused v = true -> pause v = (tt, v)).
Proof.
  intros Hreach Hr Hp.
  pose proof (reachable_wf w Hreach) as Hwf.
  pose proof (wf_timers w Hwf) as Ht. rewrite Hr, Hp in Ht. cbn in Ht.
  pose proof (wf_cancelled w Hwf Hr) as Hc.
  rewrite pause_eq, Hr, Hp, Hc. cbn [negb orb].
  cbn [isRunning isPaused timers timeoutId currentIndex result calls now].
  split; [exact Ht|]. repeat (split; [reflexivity|]).
  split; [|split].
  - intros acts Ha.
    match goal with |- context [run acts ?x] => set (w' := x) end.
    destruct (still_run acts w') as [E _]; [reflexivity | left; assumption |].
    split; [exact E|]. rewrite E. split; reflexivity.
  - intros fuel ms. now rewrite advance_idle.
  - intros v Hg. unfold pause, bind at 1, gets at 1. unfold bind at 1, gets at 1.
    now rewrite Hg.
Qed.

(** C7.  [resume()] called while Paused clears [isPaused] and takes a chunk
    step within the call, at the time of the call (the clock is the same
    before and after): the cursor moves from its saved position [cur] to
    [min(cur + count, len)], which is further when [count] is positive, and
    [handler] is called on the indices from [cur] up to the new cursor and
    on no other, so on no element handled before.  [resume()] in a world
    that is not Paused returns that world. *)
Theorem resume_continues_at_cursor (w : World) :
  reachable w -> isRunning w = true -> isPaused w = true ->
  exec resume w = exec processChunk (set_isPaused false w) /\
  isPaused (exec resume w) = false /\
  isRunning (exec resume w) = (currentIndex (exec resume w) <? total) /\
  now (exec resume w) = now w /\
  currentIndex (exec resume w) = Z.min (currentIndex w + count) total /\
  (0 < count -> currentIndex w < currentIndex (exec resume w)) /\
  (exists evs,
     calls (exec resume w) = calls w ++ evs /\
     handler_calls evs =
       map (fun i => (array_get undefined data i, i))
           (zseq (currentIndex w)
                 (Z.to_nat (currentIndex (exec resume w) - currentIndex w))) /\
     (forall x i, In (x, i) (handler_calls evs) ->
                  currentIndex w <= i < currentIndex (exec resume w))) /\
  result w = filled (Z.to_nat (currentIndex w)) /\
  (forall v, negb (isRunning v) || negb (isPaused v) = true ->
             resume v = (tt, v)).
Proof.
  intros Hreach Hr Hp.
  pose proof (reachable_wf w Hreach) as Hwf.
  pose proof (wf_active w Hwf Hr) as Hlt.
  assert (E : exec resume w = chunk_world (set_isPaused false w))
    by (now rewrite resume_eq, Hr, Hp).
  assert (Ecur : currentIndex (exec resume w) = Z.min (currentIndex w + count) total).
  { rewrite E. unfold chunk_world. cbn [currentIndex set_isPaused].
    now destruct (_ <? _). }
  split; [|split; [|split; [|split; [|split; [|split; [|split; [|split]]]]]]].
  - rewrite E. unfold exec. now rewrite processChunk_eq.
  - rewrite E. unfold chunk_world. now destruct (_ <? _).
  - rewrite Ecur. rewrite E. unfold chunk_world. cbn [currentIndex set_isPaused].
    now destruct (_ <? _).
  - rewrite E. unfold chunk_world. now destruct (_ <? _).
  - exact Ecur.
  - intros Hc. rewrite Ecur. lia.
  - rewrite Ecur.
    set (n := Z.to_nat (Z.min (currentIndex w + count) total - currentIndex w)).
    exists (loop_calls (currentIndex w) n ++
            progress_call (Z.min (currentIndex w + count) total) ++
            (if Z.min (currentIndex w + count) total <? total then []
             else complete_call
                    (loop_result n (currentIndex w) (result w)))).
    assert (Hh : forall l,
               handler_calls (loop_calls (currentIndex w) n ++
                 progress_call (Z.min (currentIndex w + count) total) ++ l)
               = map (fun i => (array_get undefined data i, i))
                     (zseq (currentIndex w) n) ++ handler_calls l).
    { intros l. now rewrite !handler_calls_app, handler_calls_loop,
        handler_calls_progress. }
    assert (Hl : handler_calls
                   (if Z.min (currentIndex w + count) total <? total then []
                    else complete_call
                           (loop_result n (currentIndex w) (result w))) = []).
    { destruct (_ <? _); [reflexivity | apply handler_calls_complete]. }
    rewrite Hh, Hl, app_nil_r.
    split; [|split; [reflexivity|]].
    + rewrite E. unfold chunk_world.
      cbn [currentIndex result calls set_isPaused]. fold n.
      destruct (_ <? _); cbn [calls]; rewrite <- ?app_assoc, ?app_nil_r;
        reflexivity.
    + intros x i Hin. apply in_map_iff in Hin as (j & Hj & Hin).
      inversion Hj; subst. apply zseq_In in Hin. lia.
  - apply (wf_result w Hwf).
  - intros v Hg. unfold resume, bind at 1, gets at 1.
    unfold bind at 1, gets at 1. now rewrite Hg.
Qed.

(** C5.  [stop()] called during a run (the scheduler Running or Paused)
    resets the cursor to 0, empties the results, clears both flags and
    cancels the pending continuation, if any: the timer queue is empty and
    the handle null after the call.  From then on and until the next
    [start()], nothing that the host or the user does changes the world
    but the clock: no chunk step runs, the cursor stays 0, and the log
    stays what it was when [stop()] was called, in which the run made no
    call to [onComplete].  [stop()] on an inactive scheduler returns the
    world unchanged. *)
Theorem stop_aborts_run (w0 : World) (acts1 acts2 : list Action) :
  reachable w0 -> isRunning w0 = false ->
  no_start acts1 = true -> no_start acts2 = true ->
  isRunning (run acts1 (exec start w0)) = true ->
  let w := run acts1 (exec start w0) in
  let w' := exec stop w in
  (currentIndex w' = 0 /\ result w' = [] /\
   isRunning w' = false /\ isPaused w' = false /\
   timers w' = [] /\ timeoutId w' = None /\ calls w' = calls w) /\
  run acts2 w' = set_now (now (run acts2 w')) w' /\
  currentIndex (run acts2 w') = 0 /\
  (exists evs,
     calls (run acts2 w') = calls w0 ++ evs /\ complete_calls evs = []) /\
  (forall v, isRunning v = false -> stop v = (tt, v)).
Proof.
  intros Hreach Hr0 Hn1 Hn2 Hr w w'. change (isRunning w = true) in Hr.
  pose proof (reachable_wf w0 Hreach) as Hwf0.
  assert (Hwf : wf w) by (apply wf_run, (wf_step Start), Hwf0).
  destruct (run_shape w0 acts1 Hwf0 Hr0 Hn1) as [k Hk]. fold w in Hk.
  destruct (ri_active Hk Hr) as [_ Hlt].
  assert (E : w' = mkWorld false false None 0 [] (now w) (nextTimerId w) []
                           (calls w)).
  { subst w'. rewrite stop_eq, Hr. cbn [negb].
    now rewrite (wf_cancelled w Hwf Hr). }
  destruct (still_run acts2 w') as [E2 _];
    [rewrite E; reflexivity | right; split; [rewrite E; reflexivity | exact Hn2] |].
  split; [rewrite E; cbn; repeat split; reflexivity|].
  split; [exact E2|]. rewrite E2.
  split; [rewrite E; reflexivity|]. split.
  - exists (run_body k). cbn [calls set_now]. rewrite E. cbn [calls].
    rewrite (ri_calls Hk), run_calls_nonfinal.
    + split; [reflexivity | apply complete_calls_body].
    + intros j Hj. destruct (Nat.eq_dec j k) as [->|Hne]; [assumption|].
      apply (ri_before Hk). lia.
  - intros v Hv. unfold stop, bind at 1, gets at 1. now rewrite Hv.
Qed.

(** C3, amended.  In every reachable world a continuation is pending in
    the host exactly when the scheduler is Running and not paused; there is
    then one pending timer, [timeoutId] is its handle and elements are left
    to handle.  In every other state the timer queue is empty.  A chunk step
    that completes the run schedules nothing and leaves [timeoutId] as it
    is: [onComplete] is called with no continuation pending, and after a
    final step run by a timer [timeoutId] still holds the handle of that
    timer.  Only [pause()] and [stop()] set [timeoutId] to null: in any
    world in which it holds a handle, it still holds one after a chunk
    step and after every operation and host action other than those two
    ([start()], [resume()], time passing, a timer firing). *)
Theorem pending_timer_only_while_running (w : World) :
  reachable w ->
  (if isRunning w && negb (isPaused w)
   then exists t, timers w = [t] /\ timeoutId w = Some (tid t) /\
                  currentIndex w < total
   else timers w = []) /\
  (forall v,
     isRunning v = true -> isPaused v = false ->
     isRunning (exec processChunk v) = false ->
     timers (exec processChunk v) = timers v /\
     nextTimerId (exec processChunk v) = nextTimerId v /\
     timeoutId (exec processChunk v) = timeoutId v) /\
  (forall id,
     isRunning w = true -> isRunning (step (Fire id) w) = false ->
     timers (step (Fire id) w) = [] /\
     timeoutId (step (Fire id) w) = Some id) /\
  (isRunning w = true -> timeoutId (exec stop w) = None) /\
  (isRunning w = true -> isPaused w = false -> timeoutId (exec pause w) = None) /\
  (forall v, timeoutId v <> None -> timeoutId (exec processChunk v) <> None) /\
  (forall v a, a <> Pause -> a <> Stop ->
               timeoutId v <> None -> timeoutId (step a v) <> None).
Proof.
  intros Hreach. pose proof (reachable_wf w Hreach) as Hwf.
  pose proof (wf_timers w Hwf) as Ht.
  assert (Hfinal : forall v,
             isRunning v = true -> isPaused v = false ->
             isRunning (exec processChunk v) = false ->
             timers (exec processChunk v) = timers v /\
             nextTimerId (exec processChunk v) = nextTimerId v /\
             timeoutId (exec processChunk v) = timeoutId v).
  { intros v Hr Hp. unfold exec. rewrite processChunk_eq by assumption.
    unfold chunk_world. destruct (_ <? _); cbn; [discriminate | auto]. }
  split; [|split; [exact Hfinal|split; [|split; [|split; [|split]]]]].
  - destruct (isRunning w && negb (isPaused w)) eqn:Hg; [|exact Ht].
    destruct Ht as (t & Hts & Hid). exists t. repeat split; try assumption.
    apply andb_prop in Hg as [Hr _]. apply (wf_active w Hwf Hr).
  - intros id Hr Hdone. cbn [step] in *. rewrite fire_eq in *.
    destruct (isRunning w && negb (isPaused w)) eqn:Hg.
    + destruct Ht as (t & Hts & Hid). apply andb_prop in Hg as [_ Hp].
      apply negb_true_iff in Hp. rewrite Hts in *. cbn [find] in *.
      destruct (Nat.eqb_spec (tid t) id) as [<-|Hne]; [|congruence].
      destruct (due t <=? now w); [|congruence].
      cbn [cancelled filter] in *. rewrite Nat.eqb_refl in *. cbn [negb] in *.
      destruct (Hfinal (set_timers [] w)) as (E1 & _ & E3); try assumption.
      rewrite E1, E3. split; [reflexivity | exact Hid].
    + rewrite Ht in *. cbn [find] in Hdone. congruence.
  - intros Hr. rewrite stop_eq, Hr. reflexivity.
  - intros Hr Hp. rewrite pause_eq, Hr, Hp. reflexivity.
  - exact processChunk_keeps_handle.
  - intros v a. apply step_keeps_handle.
Qed.

(** C4, amended.  The operations are functions that return: none of them
    waits.  [pause()] and [stop()] call neither callback, and neither do
    [start()] on an active scheduler, [resume()] on a scheduler that is not
    paused and the passing of time.  [start()] on an inactive scheduler and
    [resume()] on a paused one take one chunk step inside the call: before
    they return, [onProgress] has been called once with the new cursor,
    and [onComplete] once if that step reached the end of [data]. *)
Theorem first_chunk_is_synchronous (w : World) :
  silent pause w /\
  silent stop w /\
  (isRunning w = true -> silent start w) /\
  (negb (isRunning w) || negb (isPaused w) = true -> silent resume w) /\
  (forall ms, calls (step (Tick ms) w) = calls w) /\
  (isRunning w = false ->
   exec start w = exec processChunk (fresh_run w) /\
   chunk_callbacks (fresh_run w) (exec start w)) /\
  (isRunning w = true -> isPaused w = true ->
   exec resume w = exec processChunk (set_isPaused false w) /\
   chunk_callbacks (set_isPaused false w) (exec resume w)).
Proof.
  assert (Hchunk : forall v, chunk_callbacks v (chunk_world v)).
  { intros v. unfold chunk_callbacks, chunk_world, progress_call, complete_call.
    destruct (_ <? _); cbn [currentIndex calls result];
      (split; [reflexivity|]);
      rewrite ?progress_calls_app, ?complete_calls_app, ?progress_calls_loop,
        ?complete_calls_loop;
      destruct onProgress, onComplete; cbn; rewrite ?app_nil_r; auto. }
  unfold silent. split; [|split; [|split; [|split; [|split; [|split]]]]].
  - rewrite pause_eq. now destruct (negb (isRunning w) || isPaused w).
  - rewrite stop_eq. now destruct (negb (isRunning w)).
  - intros Hr. rewrite start_eq, Hr. split; reflexivity.
  - intros Hg. rewrite resume_eq, Hg. split; reflexivity.
  - reflexivity.
  - intros Hr. rewrite start_eq, Hr. split; [|apply Hchunk].
    unfold exec. now rewrite processChunk_eq.
  - intros Hr Hp. rewrite resume_eq, Hr, Hp. split; [|apply Hchunk].
    unfold exec. now rewrite processChunk_eq.
Qed.

(** *** An uninterrupted run *)

(** The fake clock jumps to the time of the one pending timer, which runs
    a chunk step. *)
Lemma run_earliest_eq (t : Timer) (w : World) :
  timers w = [t] -> isRunning w = true -> isPaused w = false ->
  now w <= due t ->
  run_earliest t w =
  chunk_world (mkWorld true false (timeoutId w) (currentIndex w) (result w)
                       (due t) (nextTimerId w) [] (calls w)).
Proof.
  intros Ht Hr Hp Hdue. unfold run_earliest. cbn [step].
  rewrite fire_eq. cbn [set_now timers now]. rewrite Ht. cbn [find].
  rewrite Nat.eqb_refl.
  replace (now w + Z.max 0 (due t - now w)) with (due t) by lia.
  rewrite Z.leb_refl. cbn [cancelled filter]. rewrite Nat.eqb_refl. cbn [negb].
  unfold exec. rewrite processChunk_eq by assumption.
  cbn [snd]. f_equal. unfold set_timers, set_now. cbn. now rewrite Hr, Hp.
Qed.

Lemma run_to_completion (fuel : nat) :
  forall v,
    isRunning v = true -> isPaused v = false -> timers v = [] ->
    0 <= currentIndex v <= total ->
    result v = filled (Z.to_nat (currentIndex v)) ->
    0 < count ->
    (Z.to_nat (total - currentIndex v) <= fuel)%nat ->
    exists w' evs,
      runAllTimers fuel (chunk_world v) = Some w' /\
      isRunning w' = false /\
      timers w' = [] /\
      currentIndex w' = total /\
      result w' = filled (length data) /\
      calls w' = calls v ++ evs /\
      handler_calls evs =
        map (fun j => (array_get undefined data j, j))
            (zseq (currentIndex v) (Z.to_nat (total - currentIndex v))) /\
      complete_calls evs = complete_calls (complete_call (filled (length data))).
Proof.
  induction fuel as [|fuel IH]; intros v Hr Hp Ht Hcur Hres Hc Hfuel.
  all: unfold chunk_world.
  all: rewrite Hres, chunk_result, Hp, Ht by lia.
  all: remember (Z.min (currentIndex v + count) total) as e eqn:Ee.
  all: remember (Z.to_nat (e - currentIndex v)) as n eqn:En.
  all: destruct (Z.ltb_spec e total) as [He|He]; [try lia|].
  2: {
    cbn [runAllTimers timers app earliest].
    match goal with
    | |- context [run_earliest ?t ?w] =>
        rewrite (run_earliest_eq t w) by (cbn; first [reflexivity | lia])
    end.
    cbn [timeoutId currentIndex result due nextTimerId calls].
    match goal with
    | |- context [chunk_world ?v2] => destruct (IH v2) as (w' & evs & H)
    end; cbn [isRunning isPaused timers currentIndex result]; try reflexivity;
      try lia.
    destruct H as (Hrun & H1 & H2 & H3 & H4 & H5 & H6 & H7).
    cbn [calls currentIndex] in H5, H6.
    exists w', (loop_calls (currentIndex v) n ++ progress_call e ++ evs).
    repeat (split; [assumption|]). split; [|split].
    - rewrite H5, <- !app_assoc. reflexivity.
    - rewrite !handler_calls_app, handler_calls_loop, handler_calls_progress, H6.
      cbn [app]. rewrite <- map_app. f_equal.
      replace (Z.to_nat (total - currentIndex v))
        with (n + Z.to_nat (total - e))%nat by lia.
      rewrite zseq_app. do 2 f_equal. lia.
    - rewrite !complete_calls_app, complete_calls_loop, complete_calls_progress.
      exact H7. }
  all: assert (Et : e = total) by lia.
  all: assert (El : Z.to_nat e = length data) by (unfold total in *; lia).
  all: rewrite El.
  all: eexists; exists (loop_calls (currentIndex v) n ++ progress_call e ++
                         complete_call (filled (length data))).
  all: cbn [runAllTimers timers earliest isRunning currentIndex result calls].
  all: split; [reflexivity|].
  all: repeat (split; [first [reflexivity | assumption]|]).
  all: split; [now rewrite <- !app_assoc|].
  all: rewrite !handler_calls_app, !complete_calls_app, handler_calls_loop,
         handler_calls_progress, handler_calls_complete, complete_calls_loop,
         complete_calls_progress, app_nil_r.
  all: split; [|reflexivity].
  all: do 2 f_equal; lia.
Qed.

Lemma host_actions (acts : list Action) :
  forallb is_host acts = true ->
  no_start acts = true /\ existsb is_stop acts = false.
Proof.
  induction acts as [|a acts IH]; intros H; [split; reflexivity|].
  cbn in H. apply andb_prop in H as [Ha H]. destruct (IH H) as [H1 H2].
  unfold no_start in *. cbn. rewrite H1, H2. now destruct a.
Qed.

(** C1.  Take a run started by [start()] on an inactive scheduler and
    left to the timers (no [pause()], no [stop()]), for any [data],
    [handler] and [count].  If the run completes, in whatever way the host
    let time pass and ran the timers, then [handler] was called on the
    elements of [data] paired with their indices, in index order, once
    each, and [onComplete] was called once, with an array [res] that has
    the length of [data] and holds [handler(data[i], i)] at every index
    [i].  With a positive [count] the run does complete: [runAllTimers]
    returns as soon as it is given as many steps as [data] has elements. *)
Theorem uninterrupted_run_result (w0 : World) :
  reachable w0 -> isRunning w0 = false -> onComplete = true ->
  exists res,
    length res = length data /\
    (forall i x,
       nth_error data i = Some x ->
       nth_error res i = Some (Some (handler x (Z.of_nat i)))) /\
    (forall acts,
       forallb is_host acts = true ->
       isRunning (run acts (exec start w0)) = false ->
       exists evs,
         calls (run acts (exec start w0)) = calls w0 ++ evs /\
         handler_calls evs = combine data (zseq 0 (length data)) /\
         complete_calls evs = [res]) /\
    (0 < count ->
     forall fuel,
       (length data <= fuel)%nat ->
       exists w' evs,
         runAllTimers fuel (exec start w0) = Some w' /\
         isRunning w' = false /\
         calls w' = calls w0 ++ evs /\
         handler_calls evs = combine data (zseq 0 (length data)) /\
         complete_calls evs = [res]).
Proof.
  intros Hreach Hr Hoc.
  pose proof (reachable_wf w0 Hreach) as Hwf.
  pose proof (wf_inactive_timers w0 Hwf) as Ht. rewrite Hr in Ht.
  exists (filled (length data)).
  split; [apply filled_length|]. split; [|split].
  - intros i x Hx. apply filled_nth_error; [lia | exact Hx |].
    apply nth_error_Some. congruence.
  - intros acts Ha Hdone. destruct (host_actions acts Ha) as [Hns Hst].
    destruct (run_shape w0 acts Hwf Hr Hns) as [k Hk].
    pose proof (ri_done Hk Hdone Hst) as Hfin.
    pose proof (ri_pos Hk) as Hpos.
    assert (Hc : 0 <= count) by (unfold total in Hfin; nia).
    exists (run_body k ++ chunk_tail k). split; [|split].
    + rewrite (ri_calls Hk), run_calls_split
        by (try assumption; apply (ri_before Hk)).
      reflexivity.
    + rewrite chunk_tail_final, handler_calls_app, handler_calls_complete,
        app_nil_r, handler_calls_body
        by (try assumption; apply (ri_before Hk)).
      replace (Z.to_nat (cursor_at k)) with (length data)
        by (unfold cursor_at, total in *; lia).
      apply handler_calls_data.
    + rewrite complete_calls_app, complete_calls_body, chunk_tail_final
        by assumption.
      unfold complete_call. now rewrite Hoc.
  - intros Hc fuel Hfuel. rewrite start_eq, Hr.
    destruct (run_to_completion fuel (fresh_run w0))
      as (w' & evs & Hrun & H1 & _ & _ & _ & H5 & H6 & H7);
      cbn [fresh_run isRunning isPaused timers currentIndex result];
      try reflexivity; auto; try (unfold total; lia).
    cbn [fresh_run currentIndex calls] in H5, H6.
    exists w', evs. repeat (split; [assumption|]). split.
    + rewrite H6, Z.sub_0_r. unfold total. rewrite Nat2Z.id.
      apply handler_calls_data.
    + rewrite H7. unfold complete_call. now rewrite Hoc.
Qed.

(** C2.  In a run (from a [start()] on an inactive scheduler up to the
    next one, with any interleaving of [pause()], [resume()], [stop()],
    passing time and firing timers), with both callbacks supplied, the
    calls made since [start()] are those of [k] chunk steps, for some
    [k >= 1]: the body holds the calls to [handler] and one
    [onProgress(cursor, len)] per chunk step, and no call to [onComplete];
    the body is followed by one call to [onComplete] if the [k]-th step
    reached the end of [data], by nothing otherwise.  So [onComplete] is
    called at most once, after every [onProgress] of the run, and it has
    been called once whenever the run has ended without [stop()].  With a
    positive [count] the cursors passed to [onProgress] grow strictly from
    one step to the next.  Each chunk step calls [onProgress] once, and
    [onComplete] after it when it is the last step. *)
Theorem callbacks_in_order (w0 : World) (acts : list Action) :
  reachable w0 -> isRunning w0 = false ->
  onProgress = true -> onComplete = true -> no_start acts = true ->
  exists k : nat,
    (1 <= k)%nat /\
    calls (run acts (exec start w0)) =
      calls w0 ++ run_body k ++
      (if total <=? Z.of_nat k * count
       then [CallComplete (filled (length data))] else []) /\
    complete_calls (run_body k) = [] /\
    progress_calls (run_body k) = map (fun j => (cursor_at j, total)) (seq 1 k) /\
    (0 < count ->
     forall i j, (1 <= i < j)%nat -> (j <= k)%nat -> cursor_at i < cursor_at j) /\
    (isRunning (run acts (exec start w0)) = true ->
     Z.of_nat k * count < total) /\
    (isRunning (run acts (exec start w0)) = false ->
     existsb is_stop acts = false -> total <= Z.of_nat k * count) /\
    (forall v, isRunning v = true -> isPaused v = false ->
               chunk_callbacks v (exec processChunk v)).
Proof.
  intros Hreach Hr Hop Hoc Hns.
  pose proof (reachable_wf w0 Hreach) as Hwf.
  destruct (run_shape w0 acts Hwf Hr Hns) as [k Hk].
  exists k. split; [apply (ri_pos Hk)|]. split; [|split; [|split; [|split]]].
  - rewrite (ri_calls Hk), run_calls_split
      by (try apply (ri_pos Hk); apply (ri_before Hk)).
    do 2 f_equal.
    destruct (Z.leb_spec total (Z.of_nat k * count)) as [Hfin|Hnon].
    + rewrite chunk_tail_final by assumption. unfold complete_call.
      now rewrite Hoc.
    + now apply chunk_tail_nonfinal.
  - apply complete_calls_body.
  - now apply progress_calls_body.
  - intros Hc i j Hij Hjk.
    apply (cursor_at_increasing k); auto. apply (ri_before Hk).
  - split; [|split].
    + intros Hrun. apply (ri_active Hk Hrun).
    + intros Hrun Hst. apply (ri_done Hk Hrun Hst).
    + intros v Hrv Hpv. unfold exec. rewrite processChunk_eq by assumption.
      cbn [snd].
      unfold chunk_callbacks, chunk_world, progress_call, complete_call.
      rewrite Hop, Hoc.
      destruct (_ <? _); cbn [currentIndex calls result];
        (split; [reflexivity|]);
        rewrite ?progress_calls_app, ?complete_calls_app, ?progress_calls_loop,
          ?complete_calls_loop; cbn; rewrite ?app_nil_r; auto.
Qed.

(** ** Further properties *)

(** A step either leaves the log alone or is a chunk step taken at the
    cursor of the world, on a dense array of results. *)
Lemma step_cases (a : Action) (w : World) :
  wf w ->
  (calls (step a w) = calls w /\
   (is_start a = false -> is_stop a = false ->
    currentIndex (step a w) = currentIndex w)) \/
  (exists v, dense v /\ calls v = calls w /\
             (is_start a = false -> currentIndex v = currentIndex w) /\
             step a w = chunk_world v).
Proof.
  intros H.
  assert (Hsame : calls w = calls w /\
                  (is_start a = false -> is_stop a = false ->
                   currentIndex w = currentIndex w)) by (split; auto).
  destruct a; cbn [step].
  - rewrite start_eq. destruct (isRunning w); [left; exact Hsame|].
    right. exists (fresh_run w).
    split; [apply dense_fresh_run|]. split; [reflexivity|].
    split; [discriminate | reflexivity].
  - left. rewrite pause_eq.
    destruct (negb (isRunning w) || isPaused w); split; auto.
  - rewrite resume_eq.
    destruct (negb (isRunning w) || negb (isPaused w)); [left; exact Hsame|].
    right. exists (set_isPaused false w).
    split; [apply dense_resumed, wf_dense, H|]. repeat split.
  - left. rewrite stop_eq. split; [|discriminate].
    now destruct (negb (isRunning w)).
  - left. split; reflexivity.
  - rewrite fire_eq. pose proof (wf_timers w H) as Ht.
    destruct (isRunning w && negb (isPaused w)) eqn:Hg.
    + destruct Ht as (t & Hts & Hid). apply andb_prop in Hg as [Hr Hp].
      apply negb_true_iff in Hp. rewrite Hts. cbn [find].
      destruct (tid t =? id)%nat; [|left; exact Hsame].
      destruct (due t <=? now w); [|left; exact Hsame].
      right. exists (set_timers (cancelled (Some (tid t)) [t]) w).
      split; [destruct (wf_dense w H); constructor; assumption|].
      split; [reflexivity|]. split; [reflexivity|].
      unfold exec. now rewrite processChunk_eq.
    + rewrite Ht. left. exact Hsame.
Qed.

Lemma chunk_world_handler_calls (v : World) :
  handler_calls (calls (chunk_world v)) =
  handler_calls (calls v) ++
  map (fun j => (array_get undefined data j, j))
      (zseq (currentIndex v)
            (Z.to_nat (Z.min (currentIndex v + count) total - currentIndex v))).
Proof.
  unfold chunk_world. destruct (_ <? _); cbn [calls];
    rewrite !handler_calls_app, handler_calls_loop, handler_calls_progress,
      ?handler_calls_complete, ?app_nil_r; reflexivity.
Qed.

(** Whatever the integer [count], [handler] is only ever called on an
    element of [data] and its index: the loop of the chunk step never reads
    outside the array. *)
Theorem handler_reads_inside_data (w : World) :
  reachable w ->
  forall x i,
    In (x, i) (handler_calls (calls w)) ->
    0 <= i < total /\ nth_error data (Z.to_nat i) = Some x.
Proof.
  intros [acts ->].
  assert (Hgen : forall acts w,
             wf w ->
             (forall x i, In (x, i) (handler_calls (calls w)) ->
                          0 <= i < total /\ nth_error data (Z.to_nat i) = Some x) ->
             forall x i, In (x, i) (handler_calls (calls (run acts w))) ->
                         0 <= i < total /\ nth_error data (Z.to_nat i) = Some x).
  { clear acts. induction acts as [|a acts IH]; intros w Hwf Hw; [exact Hw|].
    rewrite run_cons. apply IH; [apply wf_step, Hwf|].
    destruct (step_cases a w Hwf) as [[E _]|(v & Hv & Ec & _ & E)].
    - now rewrite E.
    - rewrite E, chunk_world_handler_calls, Ec. intros x i Hin.
      apply in_app_or in Hin as [Hin|Hin]; [now apply Hw|].
      apply in_map_iff in Hin as (j & Hj & Hin). inversion Hj; subst.
      apply zseq_In in Hin.
      pose proof (d_upper v Hv) as Hu. pose proof (d_lower v Hv) as Hl.
      assert (Hi : 0 <= i < total) by lia.
      split; [exact Hi | now apply array_get_data]. }
  apply Hgen; [apply wf_init|]. intros x i [].
Qed.

(** The cursor stays between 0 and the length of [data] (for a [count]
    that is not negative), the results are filled exactly below the
    cursor, an active scheduler has elements left, and within a run the
    cursor never moves back. *)
Theorem cursor_and_results_invariant (w : World) :
  reachable w ->
  currentIndex w <= total /\
  (0 <= count -> 0 <= currentIndex w) /\
  length (result w) = Z.to_nat (currentIndex w) /\
  (forall i, 0 <= i < currentIndex w ->
             array_get None (result w) i
             = Some (handler (array_get undefined data i) i)) /\
  (isRunning w = true -> currentIndex w < total) /\
  (forall a, 0 <= count -> is_start a = false -> is_stop a = false ->
             currentIndex w <= currentIndex (step a w)).
Proof.
  intros Hreach. pose proof (reachable_wf w Hreach) as H.
  split; [apply (wf_upper w H)|]. split; [apply (wf_lower w H)|].
  split; [rewrite (wf_result w H); apply filled_length|].
  split; [|split; [apply (wf_active w H)|]].
  - intros i Hi. rewrite (wf_result w H). apply filled_get. lia.
  - intros a Hc Ha Hs.
    destruct (step_cases a w H) as [[_ E]|(v & Hv & _ & Ec & E)].
    + rewrite E by assumption. lia.
    + rewrite E. unfold chunk_world. rewrite (Ec Ha).
      pose proof (wf_upper w H).
      destruct (_ <? _); cbn [currentIndex]; lia.
Qed.

(** A [start()] after completion or after [stop()] behaves as the first
    one: the flags, the cursor and the results after the call, and the
    calls made during it, are those of [start()] in the initial world. *)
Theorem restart_like_first_start (w : World) :
  reachable w -> isRunning w = false ->
  isRunning (exec start w) = isRunning (exec start init) /\
  isPaused (exec start w) = isPaused (exec start init) /\
  currentIndex (exec start w) = currentIndex (exec start init) /\
  result (exec start w) = result (exec start init) /\
  calls (exec start w) = calls w ++ calls (exec start init) /\
  length (timers (exec start w)) = length (timers (exec start init)).
Proof.
  intros Hreach Hr. pose proof (reachable_wf w Hreach) as H.
  pose proof (wf_inactive_timers w H) as Ht. rewrite Hr in Ht.
  rewrite !start_eq, Hr. cbn [isRunning init].
  unfold chunk_world. cbn [fresh_run currentIndex result isPaused timers calls].
  rewrite Ht by reflexivity.
  destruct (_ <? _); cbn [isRunning isPaused currentIndex result calls timers
                          app length];
    rewrite <- ?app_assoc; repeat split; reflexivity.
Qed.

(** *** Pauses and resumptions lose no element *)

Lemma firstn_zseq (n : nat) :
  forall m i, (n <= m)%nat -> firstn n (zseq i m) = zseq i n.
Proof.
  induction n as [|n IH]; intros m i Hm; [reflexivity|].
  destruct m as [|m]; [lia|]. cbn [zseq firstn]. f_equal. apply IH. lia.
Qed.

Lemma handler_calls_body_neg (k : nat) :
  count < 0 -> handler_calls (run_body k) = [].
Proof.
  intros Hc. induction k as [|k IH]; [reflexivity|].
  rewrite run_body_S, handler_calls_app, IH. unfold chunk_body.
  rewrite handler_calls_app, handler_calls_loop, handler_calls_progress.
  replace (Z.to_nat _) with O by (unfold cursor_at; lia). reflexivity.
Qed.

(** A run with pauses and resumptions in it, but no [stop()], calls
    [handler] on the elements of [data] in index order, once each, as an
    uninterrupted run does: while it is under way the calls made are
    those for the elements below the cursor, and once it has ended they
    are those for all the elements, followed by the call of [onComplete]
    with the full array. *)
Theorem pause_resume_keeps_order (w0 : World) (acts : list Action) :
  reachable w0 -> isRunning w0 = false ->
  no_start acts = true -> existsb is_stop acts = false ->
  exists evs,
    calls (run acts (exec start w0)) = calls w0 ++ evs /\
    (isRunning (run acts (exec start w0)) = true ->
     handler_calls evs
     = firstn (Z.to_nat (currentIndex (run acts (exec start w0))))
              (combine data (zseq 0 (length data))) /\
     complete_calls evs = []) /\
    (isRunning (run acts (exec start w0)) = false ->
     handler_calls evs = combine data (zseq 0 (length data)) /\
     complete_calls evs = complete_calls (complete_call (filled (length data)))).
Proof.
  intros Hreach Hr Hns Hst.
  pose proof (reachable_wf w0 Hreach) as Hwf.
  destruct (run_shape w0 acts Hwf Hr Hns) as [k Hk]. rewrite Hst in Hk.
  pose proof (ri_pos Hk) as Hpos.
  exists (run_calls k). split; [apply (ri_calls Hk)|]. split.
  - intros Hrun. destruct (ri_active Hk Hrun) as [Hcur Hlt].
    rewrite run_calls_nonfinal.
    2: { intros j Hj. destruct (Nat.eq_dec j k) as [->|Hne]; [exact Hlt|].
         apply (ri_before Hk). lia. }
    split; [|apply complete_calls_body].
    rewrite Hcur. destruct (Z.lt_ge_cases count 0) as [Hc|Hc].
    + rewrite handler_calls_body_neg by exact Hc.
      replace (Z.to_nat _) with O by nia. reflexivity.
    + rewrite handler_calls_body by (try assumption; apply (ri_before Hk)).
      rewrite <- handler_calls_data, firstn_map, firstn_zseq
        by (unfold total in Hlt; lia).
      do 2 f_equal. unfold cursor_at. lia.
  - intros Hdone. pose proof (ri_done Hk Hdone eq_refl) as Hfin.
    assert (Hc : 0 <= count) by (unfold total in Hfin; nia).
    rewrite run_calls_split by (try assumption; apply (ri_before Hk)).
    rewrite chunk_tail_final by assumption. split.
    + rewrite handler_calls_app, handler_calls_complete, app_nil_r,
        handler_calls_body by (try assumption; apply (ri_before Hk)).
      replace (Z.to_nat (cursor_at k)) with (length data)
        by (unfold cursor_at, total in *; lia).
      apply handler_calls_data.
    + rewrite complete_calls_app, complete_calls_body. reflexivity.
Qed.

(** *** A count that is not positive *)

Lemma chunk_spins (v : World) :
  count <= 0 -> 0 < total -> currentIndex v <= 0 ->
  chunk_world v =
  mkWorld true (isPaused v) (Some (nextTimerId v)) (currentIndex v + count)
          (result v) (now v) (S (nextTimerId v))
          (timers v ++ [{| tid := nextTimerId v;
                           due := now v + Z.max 0 interval |}])
          (calls v ++ progress_call (currentIndex v + count)).
Proof.
  intros Hc Ht Hcur. unfold chunk_world.
  rewrite Z.min_l by lia.
  replace (Z.to_nat (currentIndex v + count - currentIndex v)) with O by lia.
  destruct (Z.ltb_spec (currentIndex v + count) total); [|lia].
  reflexivity.
Qed.

Lemma spinning_chunk (v : World) :
  count <= 0 -> 0 < total -> spinning v ->
  spinning (chunk_world v) /\
  isRunning (chunk_world v) = true /\
  isPaused (chunk_world v) = isPaused v.
Proof.
  intros Hc Ht (Hcur & Hh & Hd). rewrite chunk_spins by assumption.
  cbn [isRunning isPaused]. split; [|split; reflexivity].
  unfold spinning. cbn [currentIndex calls].
  rewrite handler_calls_app, complete_calls_app, handler_calls_progress,
    complete_calls_progress, Hh, Hd.
  split; [lia | split; reflexivity].
Qed.

Lemma spinning_step (a : Action) (w : World) :
  count <= 0 -> 0 < total -> spinning w ->
  spinning (step a w) /\
  (isRunning w = true -> is_stop a = false -> isRunning (step a w) = true) /\
  (is_host a = true -> isPaused (step a w) = isPaused w).
Proof.
  intros Hc Ht Hw. pose proof Hw as (Hcur & Hh & Hd).
  destruct a; cbn [step].
  - rewrite start_eq. destruct (isRunning w) eqn:Hr;
      [split; [exact Hw | split; auto]|].
    destruct (spinning_chunk (fresh_run w) Hc Ht) as (H1 & H2 & _).
    { unfold spinning. cbn [fresh_run currentIndex calls].
      split; [lia | split; assumption]. }
    split; [exact H1|]. split; [discriminate | discriminate].
  - rewrite pause_eq.
    destruct (negb (isRunning w) || isPaused w) eqn:Hg;
      [split; [exact Hw | split; auto]|].
    split; [exact Hw|]. cbn [isRunning]. split; [auto | discriminate].
  - rewrite resume_eq.
    destruct (negb (isRunning w) || negb (isPaused w));
      [split; [exact Hw | split; auto]|].
    destruct (spinning_chunk (set_isPaused false w) Hc Ht) as (H1 & H2 & _);
      [exact Hw|].
    split; [exact H1|]. split; [auto | discriminate].
  - rewrite stop_eq. destruct (negb (isRunning w));
      [split; [exact Hw | split; auto]|].
    split; [|split; discriminate].
    unfold spinning. cbn [currentIndex calls]. split; [lia | split; assumption].
  - split; [exact Hw|]. split; [auto | reflexivity].
  - rewrite fire_eq. destruct (find _ (timers w)) as [t|];
      [|split; [exact Hw | split; auto]].
    destruct (due t <=? now w); [|split; [exact Hw | split; auto]].
    set (v := set_timers _ w).
    assert (Hv : spinning v) by exact Hw.
    unfold exec.
    destruct (negb (isRunning v) || isPaused v) eqn:Hg.
    + rewrite processChunk_idle by exact Hg. cbn [snd].
      split; [exact Hw | split; auto].
    + apply orb_false_elim in Hg as [Hr Hp]. apply negb_false_iff in Hr.
      rewrite processChunk_eq by assumption. cbn [snd].
      destruct (spinning_chunk v Hc Ht Hv) as (H1 & H2 & H3).
      split; [exact H1|]. split; [auto|]. intros _. exact H3.
Qed.

Lemma spinning_run (acts : list Action) :
  count <= 0 -> 0 < total ->
  forall w, spinning w -> spinning (run acts w).
Proof.
  intros Hc Ht. induction acts as [|a acts IH]; intros w Hw; [exact Hw|].
  rewrite run_cons. apply IH. now apply spinning_step.
Qed.

(** With a [count] that is zero or negative and a [data] that is not
    empty, the scheduler spins: [handler] and [onComplete] are never
    called and no result is ever stored, yet a started run goes on, a
    timer after the other, until [stop()] is called, so that running all
    the timers never comes to an end. *)
Theorem nonpositive_count_never_completes (w : World) :
  count <= 0 -> 0 < total -> reachable w ->
  handler_calls (calls w) = [] /\
  complete_calls (calls w) = [] /\
  result w = [] /\
  (isRunning w = true ->
   forall a, is_stop a = false -> isRunning (step a w) = true) /\
  (isRunning w = true -> isPaused w = false ->
   forall fuel, runAllTimers fuel w = None).
Proof.
  intros Hc Ht Hreach. pose proof (reachable_wf w Hreach) as Hwf.
  destruct Hreach as [acts ->].
  assert (Hs : spinning (run acts init)).
  { apply spinning_run; try assumption.
    unfold spinning. cbn. split; [lia | split; reflexivity]. }
  set (w := run acts init) in *.
  pose proof Hs as (Hcur & Hh & Hd).
  split; [exact Hh|]. split; [exact Hd|]. split.
  { rewrite (wf_result w Hwf).
    replace (Z.to_nat (currentIndex w)) with O by lia. reflexivity. }
  split.
  { intros Hr a Ha. now apply (spinning_step a w Hc Ht Hs). }
  intros Hr Hp fuel. clearbody w. clear acts Hcur Hh Hd.
  revert w Hwf Hs Hr Hp.
  induction fuel as [|fuel IH]; intros w Hwf Hs Hr Hp;
    pose proof (wf_timers w Hwf) as Htm; rewrite Hr, Hp in Htm;
    cbn [andb negb] in Htm; destruct Htm as (t & Hts & _);
    cbn [runAllTimers]; rewrite Hts; cbn [earliest]; [reflexivity|].
  unfold run_earliest.
  set (w1 := step (Tick (due t - now w)) w).
  destruct (spinning_step (Tick (due t - now w)) w Hc Ht Hs) as (Hs1 & Hr1 & Hp1).
  fold w1 in Hs1, Hr1, Hp1.
  destruct (spinning_step (Fire (tid t)) w1 Hc Ht Hs1) as (Hs2 & Hr2 & Hp2).
  apply IH.
  - apply wf_step, wf_step, Hwf.
  - exact Hs2.
  - apply Hr2; [apply Hr1; [exact Hr | reflexivity] | reflexivity].
  - rewrite Hp2, Hp1 by reflexivity. exact Hp.
Qed.

End UseTimeSlice.

Arguments init {T R}.
Arguments data {T R} options.
Arguments count {T R} options.
Arguments interval {T R} options.
Arguments handler {T R} options _ _.
Arguments onComplete {T R} options.
Arguments onProgress {T R} options.
Arguments total {T R} options.
Arguments filled {T R} undefined options n.
Arguments processChunk {T R} undefined options _.
Arguments start {T R} undefined options _.
Arguments pause {T R} _.
Arguments resume {T R} undefined options _.
Arguments stop {T R} _.
Arguments step {T R} undefined options a w.
Arguments run {T R} undefined options acts w.
Arguments reachable {T R} undefined options w.
Arguments runAllTimers {T R} undefined options fuel w.
Arguments advanceTimersByTime {T R} undefined options fuel ms w.
Arguments set_now {T R} t w.
Arguments flags_ok {T R} w.
Arguments handle_tracks_pending {T R} options w.
Arguments silent {T R} m w.

(** ** The claims on the scenarios of the test-suite *)

Import Scenario.

(** The scenario of five items in slices of two, 100 ms apart: the first
    slice is handled inside [start()], the second after 100 ms, the last
    after another 100 ms, followed by the completion call. *)
Example five_items_scenario :
  (let w := exec (start 0 five) init in
   (result w, calls w, isRunning w))
  = ([Some 2; Some 4],
     [CallHandler 1 0; CallHandler 2 1; CallProgress 2 5], true) /\
  option_map (fun w => (result w, progress_calls (calls w), isRunning w))
    (advanceTimersByTime 0 five 5 100 (exec (start 0 five) init))
  = Some ([Some 2; Some 4; Some 6; Some 8], [(2, 5); (4, 5)], true) /\
  option_map (fun w => (progress_calls (calls w), complete_calls (calls w),
                        isRunning w))
    (advanceTimersByTime 0 five 5 200 (exec (start 0 five) init))
  = Some ([(2, 5); (4, 5); (5, 5)],
          [[Some 2; Some 4; Some 6; Some 8; Some 10]], false).
Proof. split; [reflexivity | split; reflexivity]. Qed.

(** Pause and resume: one element is handled by [start()]; during a pause
    of 200 ms none is; [resume()] handles the next one at once, the timer
    it sets the third one 100 ms later, and the run goes on to the fifth. *)
Example pause_resume_scenario :
  length (handler_calls (calls (exec (start 0 one_by_one) init))) = 1%nat /\
  option_map (fun w => (length (handler_calls (calls w)), isRunning w, now w))
    (advanceTimersByTime 0 one_by_one 5 200
       (exec pause (exec (start 0 one_by_one) init)))
  = Some (1%nat, true, 200) /\
  length (handler_calls (calls
    (run 0 one_by_one [Start; Pause; Tick 200; Resume] init))) = 2%nat /\
  option_map (fun w => length (handler_calls (calls w)))
    (advanceTimersByTime 0 one_by_one 5 100
       (run 0 one_by_one [Start; Pause; Tick 200; Resume] init))
  = Some 3%nat /\
  option_map (fun w => (length (handler_calls (calls w)), isRunning w))
    (runAllTimers 0 one_by_one 5
       (run 0 one_by_one [Start; Pause; Tick 200; Resume] init))
  = Some (5%nat, false).
Proof. repeat (split; [reflexivity|]). reflexivity. Qed.

(** The default options: 25 elements are handled in three slices of 10,
    10 and 5, 16 ms apart; a second run after the first handles them
    again and calls [onComplete] a second time. *)
Example default_options_scenario :
  count defaults = 10 /\
  interval defaults = 16 /\
  isRunning (exec (start 0 defaults) init) = true /\
  option_map (fun w => (length (handler_calls (calls w)),
                        progress_calls (calls w), isRunning w, now w))
    (runAllTimers 0 defaults 3 (exec (start 0 defaults) init))
  = Some (25%nat, [(10, 25); (20, 25); (25, 25)], false, 32) /\
  match runAllTimers 0 defaults 3 (exec (start 0 defaults) init) with
  | Some w =>
      option_map (fun w' => (length (handler_calls (calls w')),
                             length (complete_calls (calls w'))))
        (runAllTimers 0 defaults 3 (exec (start 0 defaults) w))
  | None => None
  end = Some (50%nat, 2%nat).
Proof. repeat (split; [reflexivity|]). reflexivity. Qed.

(** C1 on five items in slices of two. *)
Lemma uninterrupted_run_result_witness :
  reachable 0 five init /\
  isRunning (@init Z Z) = false /\
  onComplete five = true /\
  exists res w' evs,
    length res = 5%nat /\
    runAllTimers 0 five 5 (exec (start 0 five) init) = Some w' /\
    isRunning w' = false /\
    calls w' = calls (@init Z Z) ++ evs /\
    handler_calls evs = [(1, 0); (2, 1); (3, 2); (4, 3); (5, 4)] /\
    complete_calls evs = [res].
Proof.
  assert (H1 : reachable 0 five init) by (exists []; reflexivity).
  assert (H2 : isRunning (@init Z Z) = false) by reflexivity.
  assert (H3 : onComplete five = true) by reflexivity.
  assert (H4 : 0 < count five) by reflexivity.
  assert (H5 : (length (data five) <= 5)%nat) by (cbn; lia).
  split; [exact H1|]. split; [exact H2|]. split; [exact H3|].
  destruct (uninterrupted_run_result Z Z 0 five init H1 H2 H3)
    as (res & E0 & _ & _ & E).
  destruct (E H4 5%nat H5) as (w' & evs & E1 & E2 & E3 & E4 & E5).
  exists res, w', evs. repeat (split; [assumption|]). exact E5.
Defined.

(** C2 on a run that is paused, resumed and left to complete. *)
Lemma callbacks_in_order_witness :
  reachable 0 two init /\
  isRunning (@init Z Z) = false /\
  onProgress two = true /\
  onComplete two = true /\
  no_start [Pause; Tick 500; Resume] = true /\
  exists k : nat,
    calls (run 0 two [Pause; Tick 500; Resume] (exec (start 0 two) init)) =
      calls (@init Z Z) ++ run_body Z Z 0 two k ++
      (if total two <=? Z.of_nat k * count two
       then [CallComplete (filled 0 two (length (data two)))] else []).
Proof.
  assert (H1 : reachable 0 two init) by (exists []; reflexivity).
  assert (H2 : isRunning (@init Z Z) = false) by reflexivity.
  assert (H4 : onProgress two = true) by reflexivity.
  assert (H5 : onComplete two = true) by reflexivity.
  assert (H6 : no_start [Pause; Tick 500; Resume] = true) by reflexivity.
  repeat (split; [assumption|]).
  destruct (callbacks_in_order Z Z 0 two init [Pause; Tick 500; Resume]
              H1 H2 H4 H5 H6) as (k & _ & E & _).
  exists k. exact E.
Defined.

(** C3 as stated fails after a run of two slices: the run is complete, no
    timer is pending, and [timeoutId] still holds the handle of the timer
    that ran the second slice. *)
Lemma handle_outlives_run :
  reachable 0 two (run 0 two [Start; Tick 100; Fire 1] init) /\
  isRunning (run 0 two [Start; Tick 100; Fire 1] init) = false /\
  timers (run 0 two [Start; Tick 100; Fire 1] init) = [] /\
  timeoutId (run 0 two [Start; Tick 100; Fire 1] init) = Some 1%nat /\
  ~ handle_tracks_pending two (run 0 two [Start; Tick 100; Fire 1] init).
Proof.
  split; [exists [Start; Tick 100; Fire 1%nat]; reflexivity|].
  repeat (split; [reflexivity|]).
  intros [H _]. assert (Hn : Some 1%nat <> None) by discriminate.
  destruct (H Hn) as [Hr _]. discriminate Hr.
Qed.

(** C3, amended, on the world in which the second slice is pending. *)
Lemma pending_timer_only_while_running_witness :
  reachable 0 two (run 0 two [Start] init) /\
  (exists t, timers (run 0 two [Start] init) = [t] /\
             timeoutId (run 0 two [Start] init) = Some (tid t)) /\
  timers (step 0 two (Fire 1) (run 0 two [Start; Tick 100] init)) = [] /\
  timeoutId (step 0 two (Fire 1) (run 0 two [Start; Tick 100] init)) = Some 1%nat /\
  timeoutId (run 0 two [Start; Tick 100; Fire 1] init) <> None /\
  timeoutId (step 0 two Start (run 0 two [Start; Tick 100; Fire 1] init)) <> None /\
  timeoutId (step 0 two Resume (run 0 two [Start; Tick 100; Fire 1] init)) <> None /\
  timeoutId (step 0 two (Tick 50) (run 0 two [Start; Tick 100; Fire 1] init)) <> None /\
  timeoutId (step 0 two (Fire 1) (run 0 two [Start] init)) <> None.
Proof.
  assert (H1 : reachable 0 two (run 0 two [Start] init))
    by (exists [Start]; reflexivity).
  assert (H2 : reachable 0 two (run 0 two [Start; Tick 100] init))
    by (exists [Start; Tick 100]; reflexivity).
  split; [exact H1|]. split.
  - destruct (pending_timer_only_while_running Z Z 0 two _ H1) as (E & _).
    cbn in E. destruct E as (t & Et & Eh & _). exists t. split; assumption.
  - destruct (pending_timer_only_while_running Z Z 0 two _ H2)
      as (_ & _ & E & _ & _ & _ & K).
    destruct (E 1%nat eq_refl eq_refl) as [E1 E2].
    assert (H3 : timeoutId (run 0 two [Start; Tick 100; Fire 1] init) <> None)
      by discriminate.
    assert (H4 : timeoutId (run 0 two [Start] init) <> None) by discriminate.
    split; [exact E1|]. split; [exact E2|]. split; [exact H3|].
    split; [apply K; [discriminate | discriminate | exact H3]|].
    split; [apply K; [discriminate | discriminate | exact H3]|].
    split; [apply K; [discriminate | discriminate | exact H3]|].
    apply K; [discriminate | discriminate | exact H4].
Defined.

(** C4 as stated fails on the first [start()]: the call returns with
    [onProgress(2, 5)] already made; with a single slice, [onComplete] is
    made inside the call too, and [resume()] does the same. *)
Lemma start_calls_back_synchronously :
  calls (exec (start 0 five) init) =
    [CallHandler 1 0; CallHandler 2 1; CallProgress 2 5] /\
  ~ silent (start 0 five) init /\
  complete_calls (calls (exec (start 0 (opts [1; 2] 10 100)) init)) =
    [[Some 2; Some 4]] /\
  ~ silent (resume 0 five) (run 0 five [Start; Pause] init).
Proof.
  split; [reflexivity|]. split; [|split; [reflexivity|]].
  - intros [H _]. discriminate H.
  - intros [H _]. discriminate H.
Qed.

(** C5 on a run stopped while its second slice is pending. *)
Lemma stop_aborts_run_witness :
  reachable 0 five init /\
  isRunning (@init Z Z) = false /\
  no_start [Tick 50] = true /\
  no_start [Tick 500; Fire 1; Resume] = true /\
  isRunning (run 0 five [Tick 50] (exec (start 0 five) init)) = true /\
  currentIndex
    (run 0 five [Tick 500; Fire 1; Resume]
       (exec stop (run 0 five [Tick 50] (exec (start 0 five) init)))) = 0 /\
  exists evs,
    calls (run 0 five [Tick 500; Fire 1; Resume]
             (exec stop (run 0 five [Tick 50] (exec (start 0 five) init))))
    = calls (@init Z Z) ++ evs /\
    complete_calls evs = [].
Proof.
  assert (H1 : reachable 0 five init) by (exists []; reflexivity).
  assert (H2 : isRunning (@init Z Z) = false) by reflexivity.
  assert (H3 : no_start [Tick 50] = true) by reflexivity.
  assert (H4 : no_start [Tick 500; Fire 1%nat; Resume] = true) by reflexivity.
  assert (H5 : isRunning (run 0 five [Tick 50] (exec (start 0 five) init)) = true)
    by reflexivity.
  repeat (split; [assumption|]).
  destruct (stop_aborts_run Z Z 0 five init [Tick 50]
              [Tick 500; Fire 1%nat; Resume] H1 H2 H3 H4 H5)
    as (_ & _ & E1 & E2 & _).
  split; [exact E1 | exact E2].
Defined.

(** C6 on a run paused while its second slice is pending. *)
Lemma pause_cancels_continuation_witness :
  reachable 0 five (run 0 five [Start] init) /\
  isRunning (run 0 five [Start] init) = true /\
  isPaused (run 0 five [Start] init) = false /\
  timers (exec pause (run 0 five [Start] init)) = [] /\
  advanceTimersByTime 0 five 10 200 (exec pause (run 0 five [Start] init)) =
    Some (set_now (now (run 0 five [Start] init) + Z.max 0 200)
                  (exec pause (run 0 five [Start] init))).
Proof.
  assert (H1 : reachable 0 five (run 0 five [Start] init))
    by (exists [Start]; reflexivity).
  assert (H2 : isRunning (run 0 five [Start] init) = true) by reflexivity.
  assert (H3 : isPaused (run 0 five [Start] init) = false) by reflexivity.
  repeat (split; [assumption|]).
  destruct (pause_cancels_continuation Z Z 0 five _ H1 H2 H3)
    as (_ & _ & _ & E1 & _ & _ & _ & _ & _ & E2 & _).
  split; [exact E1 | apply E2].
Defined.

(** C7 on a run resumed after a pause. *)
Lemma resume_continues_at_cursor_witness :
  reachable 0 five (run 0 five [Start; Pause; Tick 500] init) /\
  isRunning (run 0 five [Start; Pause; Tick 500] init) = true /\
  isPaused (run 0 five [Start; Pause; Tick 500] init) = true /\
  now (exec (resume 0 five) (run 0 five [Start; Pause; Tick 500] init)) =
    now (run 0 five [Start; Pause; Tick 500] init) /\
  currentIndex (exec (resume 0 five) (run 0 five [Start; Pause; Tick 500] init)) =
    Z.min (currentIndex (run 0 five [Start; Pause; Tick 500] init) + count five)
          (total five).
Proof.
  assert (H1 : reachable 0 five (run 0 five [Start; Pause; Tick 500] init))
    by (exists [Start; Pause; Tick 500]; reflexivity).
  assert (H2 : isRunning (run 0 five [Start; Pause; Tick 500] init) = true)
    by reflexivity.
  assert (H3 : isPaused (run 0 five [Start; Pause; Tick 500] init) = true)
    by reflexivity.
  repeat (split; [assumption|]).
  destruct (resume_continues_at_cursor Z Z 0 five _ H1 H2 H3)
    as (_ & _ & _ & E1 & E2 & _).
  split; [exact E1 | exact E2].
Defined.

(** C8 on a second [start()] during the first slice gap. *)
Lemma start_while_active_is_noop_witness :
  isRunning (run 0 five [Start] init) = true /\
  start 0 five (run 0 five [Start] init) = (tt, run 0 five [Start] init).
Proof.
  assert (H1 : isRunning (run 0 five [Start] init) = true) by reflexivity.
  split; [exact H1|].
  exact (proj1 (start_while_active_is_noop Z Z 0 five _ H1)).
Defined.

(** C9 on three elements with a count of five, and on the empty input
    with the default count. *)
Lemma single_chunk_run_witness :
  reachable 0 (opts [1; 2; 3] 5 100) init /\
  isRunning (@init Z Z) = false /\
  total (opts [1; 2; 3] 5 100) <= count (opts [1; 2; 3] 5 100) /\
  isRunning (exec (start 0 (opts [1; 2; 3] 5 100)) init) = false /\
  calls (exec (start 0 (opts [1; 2; 3] 5 100)) init)
  = [CallHandler 1 0; CallHandler 2 1; CallHandler 3 2; CallProgress 3 3;
     CallComplete [Some 2; Some 4; Some 6]] /\
  handler_calls (calls (exec (start 0 (opts [1; 2; 3] 5 100)) init))
  = [(1, 0); (2, 1); (3, 2)] /\
  nth_error (result (exec (start 0 (opts [1; 2; 3] 5 100)) init)) 2
  = Some (Some 6) /\
  timers (exec (start 0 (opts [1; 2; 3] 5 100)) init) = [] /\
  nextTimerId (exec (start 0 (opts [1; 2; 3] 5 100)) init)
  = nextTimerId (@init Z Z) /\
  reachable 0 none init /\
  total none <= count none /\
  isRunning (exec (start 0 none) init) = false /\
  calls (exec (start 0 none) init) =
    calls (@init Z Z) ++ progress_call Z Z none 0 ++ complete_call Z Z none [].
Proof.
  assert (G1 : reachable 0 (opts [1; 2; 3] 5 100) init)
    by (exists []; reflexivity).
  assert (H1 : reachable 0 none init) by (exists []; reflexivity).
  assert (H2 : isRunning (@init Z Z) = false) by reflexivity.
  assert (G3 : total (opts [1; 2; 3] 5 100) <= count (opts [1; 2; 3] 5 100))
    by (cbn; lia).
  assert (H3 : total none <= count none) by (cbn; lia).
  destruct (single_chunk_run Z Z 0 (opts [1; 2; 3] 5 100) init G1 H2 G3)
    as (F1 & _ & _ & F4 & F5 & F6 & _ & F8 & _ & F10 & _).
  destruct (single_chunk_run Z Z 0 none init H1 H2 H3)
    as (E1 & _ & _ & _ & _ & _ & _ & _ & _ & _ & E2).
  split; [exact G1|]. split; [exact H2|]. split; [exact G3|].
  split; [exact F1|]. split; [exact F4|]. split; [exact F8|].
  split; [exact (F10 2%nat 3 eq_refl)|]. split; [exact F6|].
  split; [exact F5|]. split; [exact H1|]. split; [exact H3|].
  split; [exact E1 | exact (proj1 (E2 eq_refl))].
Defined.

(** C10 from the initial world. *)
Lemma flags_invariant_witness :
  flags_ok (@init Z Z) /\
  forall acts, flags_ok (run 0 five acts init).
Proof.
  assert (H1 : flags_ok (@init Z Z)) by (intros H; discriminate H).
  split; [exact H1|]. intros acts.
  destruct (flags_invariant Z Z 0 five init H1) as (_ & _ & _ & E).
  exact (proj1 (E acts)).
Defined.

(** The calls to [handler] of the first slice are made on elements of
    [data]. *)
Lemma handler_reads_inside_data_witness :
  reachable 0 five (run 0 five [Start] init) /\
  In (2, 1) (handler_calls (calls (run 0 five [Start] init))) /\
  0 <= 1 < total five /\
  nth_error (data five) (Z.to_nat 1) = Some 2.
Proof.
  assert (H1 : reachable 0 five (run 0 five [Start] init))
    by (exists [Start]; reflexivity).
  assert (H2 : In (2, 1) (handler_calls (calls (run 0 five [Start] init))))
    by (right; left; reflexivity).
  split; [exact H1|]. split; [exact H2|].
  exact (handler_reads_inside_data Z Z 0 five _ H1 2 1 H2).
Defined.

(** The invariant of the cursor while the second slice is pending. *)
Lemma cursor_and_results_invariant_witness :
  reachable 0 five (run 0 five [Start] init) /\
  currentIndex (run 0 five [Start] init) <= total five /\
  length (result (run 0 five [Start] init)) =
    Z.to_nat (currentIndex (run 0 five [Start] init)).
Proof.
  assert (H1 : reachable 0 five (run 0 five [Start] init))
    by (exists [Start]; reflexivity).
  split; [exact H1|].
  destruct (cursor_and_results_invariant Z Z 0 five _ H1) as (E1 & _ & E2 & _).
  split; [exact E1 | exact E2].
Defined.

(** A [start()] after a [stop()], and one after a completed run. *)
Lemma restart_like_first_start_witness :
  reachable 0 five (run 0 five [Start; Stop] init) /\
  isRunning (run 0 five [Start; Stop] init) = false /\
  result (exec (start 0 five) (run 0 five [Start; Stop] init)) =
    result (exec (start 0 five) init) /\
  reachable 0 two (run 0 two [Start; Tick 100; Fire 1] init) /\
  isRunning (run 0 two [Start; Tick 100; Fire 1] init) = false /\
  calls (exec (start 0 two) (run 0 two [Start; Tick 100; Fire 1] init)) =
    calls (run 0 two [Start; Tick 100; Fire 1] init) ++
    calls (exec (start 0 two) init).
Proof.
  assert (H1 : reachable 0 five (run 0 five [Start; Stop] init))
    by (exists [Start; Stop]; reflexivity).
  assert (H2 : isRunning (run 0 five [Start; Stop] init) = false)
    by reflexivity.
  assert (H3 : reachable 0 two (run 0 two [Start; Tick 100; Fire 1] init))
    by (exists [Start; Tick 100; Fire 1%nat]; reflexivity).
  assert (H4 : isRunning (run 0 two [Start; Tick 100; Fire 1] init) = false)
    by reflexivity.
  split; [exact H1|]. split; [exact H2|].
  destruct (restart_like_first_start Z Z 0 five _ H1 H2) as (_ & _ & _ & E & _).
  split; [exact E|]. split; [exact H3|]. split; [exact H4|].
  destruct (restart_like_first_start Z Z 0 two _ H3 H4)
    as (_ & _ & _ & _ & E' & _).
  exact E'.
Defined.

(** ** useThrottle: properties *)

Section ThrottleProperties.
Variable Args : Type.
Variable delay : Z.

Local Notation TWorld := (Throttle.World Args).

Lemma throttled_eq (args : Args) (w : TWorld) :
  exec (Throttle.throttled delay args) w =
  if delay <=? Throttle.clock w - Throttle.lastExecuteTime w
  then Throttle.mkWorld (Throttle.clock w) (Throttle.clock w)
         (Throttle.executed w ++ [(Throttle.clock w, args)])
  else w.
Proof.
  unfold exec, Throttle.throttled, bind, gets. cbn.
  destruct (delay <=? _); reflexivity.
Qed.

Lemma throttle_run_cons (a : Throttle.Action Args) (acts : list (Throttle.Action Args))
    (w : TWorld) :
  Throttle.run delay (a :: acts) w = Throttle.run delay acts (Throttle.step delay a w).
Proof. reflexivity. Qed.

Lemma spaced_snoc (l : list (Z * Args)) :
  forall prev t args,
    Throttle.spaced delay prev l ->
    delay <= t - Throttle.last_time prev l ->
    Throttle.spaced delay prev (l ++ [(t, args)]).
Proof.
  induction l as [|[t1 a1] l IH]; intros prev t args Hs Ht.
  - cbn in *. auto.
  - cbn [app Throttle.spaced] in *. destruct Hs as [H1 Hs]. split; [exact H1|].
    apply IH; [exact Hs | exact Ht].
Qed.

(** The executions of [fn] are never less than [delay] apart, whatever the
    calls and whatever the clock does; the first one is at a time that is
    at least [delay], [lastExecuteTime] being 0 at first. *)
Theorem throttle_spacing (t0 : Z) (acts : list (Throttle.Action Args)) :
  Throttle.spaced delay 0
    (Throttle.executed (Throttle.run delay acts (Throttle.init t0))).
Proof.
  assert (Hgen : forall acts (w : TWorld),
             Throttle.spaced delay 0 (Throttle.executed w) ->
             Throttle.lastExecuteTime w = Throttle.last_time 0 (Throttle.executed w) ->
             Throttle.spaced delay 0 (Throttle.executed (Throttle.run delay acts w))).
  { clear acts. induction acts as [|a acts IH]; intros w Hs Hl; [exact Hs|].
    rewrite throttle_run_cons. destruct a as [args|t]; cbn [Throttle.step].
    - rewrite throttled_eq.
      destruct (Z.leb_spec delay (Throttle.clock w - Throttle.lastExecuteTime w));
        [|now apply IH].
      apply IH; cbn [Throttle.executed Throttle.lastExecuteTime].
      + apply spaced_snoc; [exact Hs | now rewrite <- Hl].
      + unfold Throttle.last_time. now rewrite fold_left_app.
    - apply IH; assumption. }
  apply Hgen; reflexivity.
Qed.

(** [fn] is called only from inside a call of the throttled function, with
    the arguments of that call: the executions are the calls of the
    history with some left out, in the same order.  A call that is left
    out is never made up for later. *)
Theorem throttle_executes_some_calls (t0 : Z) (acts : list (Throttle.Action Args)) :
  Throttle.Subseq
    (Throttle.executed (Throttle.run delay acts (Throttle.init t0)))
    (Throttle.invocations t0 acts).
Proof.
  assert (Hgen : forall (acts : list (Throttle.Action Args)) (w : TWorld),
             exists l,
               Throttle.executed (Throttle.run delay acts w)
                 = Throttle.executed w ++ l /\
               Throttle.Subseq l (Throttle.invocations (Throttle.clock w) acts)).
  { clear acts. induction acts as [|a acts IH]; intros w.
    - exists []. split; [now rewrite app_nil_r | constructor].
    - rewrite throttle_run_cons. destruct a as [args|t];
        cbn [Throttle.step Throttle.invocations].
      + rewrite throttled_eq.
        destruct (delay <=? Throttle.clock w - Throttle.lastExecuteTime w).
        * destruct (IH (Throttle.mkWorld (Throttle.clock w) (Throttle.clock w)
                          (Throttle.executed w ++ [(Throttle.clock w, args)])))
            as (l & E & Hl).
          exists ((Throttle.clock w, args) :: l). cbn in *.
          split; [now rewrite E, <- app_assoc | now constructor].
        * destruct (IH w) as (l & E & Hl). exists l.
          split; [exact E | now constructor].
      + destruct (IH (Throttle.mkWorld (Throttle.lastExecuteTime w) t
                        (Throttle.executed w))) as (l & E & Hl).
        exists l. split; assumption. }
  destruct (Hgen acts (Throttle.init t0)) as (l & E & Hl).
  rewrite E. exact Hl.
Qed.

Lemma throttle_run_spaced (acts : list (Throttle.Action Args)) :
  forall w : TWorld,
    Throttle.spaced delay (Throttle.lastExecuteTime w)
      (Throttle.invocations (Throttle.clock w) acts) ->
    Throttle.executed (Throttle.run delay acts w)
    = Throttle.executed w ++ Throttle.invocations (Throttle.clock w) acts.
Proof.
  induction acts as [|a acts IH]; intros w Hs.
  - cbn. now rewrite app_nil_r.
  - rewrite throttle_run_cons. destruct a as [args|t];
      cbn [Throttle.step Throttle.invocations Throttle.spaced] in *.
    + destruct Hs as [H1 Hs]. rewrite throttled_eq.
      destruct (Z.leb_spec delay (Throttle.clock w - Throttle.lastExecuteTime w));
        [|lia].
      rewrite IH; cbn; [now rewrite <- app_assoc | exact Hs].
    + rewrite IH; [reflexivity | exact Hs].
Qed.

(** Calls that are at least [delay] apart (the first one at a time that is
    at least [delay]) are all executed, at once and in order: the
    throttled function then behaves as [fn]. *)
Theorem throttle_transparent (t0 : Z) (acts : list (Throttle.Action Args)) :
  Throttle.spaced delay 0 (Throttle.invocations t0 acts) ->
  Throttle.executed (Throttle.run delay acts (Throttle.init t0))
  = Throttle.invocations t0 acts.
Proof. intros Hs. now rewrite throttle_run_spaced. Qed.

(** After an execution, the calls made less than [delay] after it are
    dropped: [fn] is not called for them, then or later, and
    [lastExecuteTime] stays the time of that execution. *)
Theorem throttle_drops_burst (w : TWorld) (acts : list (Throttle.Action Args)) :
  Throttle.within delay (Throttle.lastExecuteTime w)
    (Throttle.invocations (Throttle.clock w) acts) ->
  Throttle.executed (Throttle.run delay acts w) = Throttle.executed w /\
  Throttle.lastExecuteTime (Throttle.run delay acts w) = Throttle.lastExecuteTime w.
Proof.
  revert w. induction acts as [|a acts IH]; intros w Hw; [split; reflexivity|].
  rewrite throttle_run_cons. destruct a as [args|t];
    cbn [Throttle.step Throttle.invocations] in *.
  - unfold Throttle.within in Hw. apply Forall_cons_iff in Hw as [H1 Hw].
    cbn [fst] in H1. rewrite throttled_eq.
    destruct (Z.leb_spec delay (Throttle.clock w - Throttle.lastExecuteTime w));
      [lia|].
    apply IH. exact Hw.
  - apply (IH (Throttle.mkWorld (Throttle.lastExecuteTime w) t (Throttle.executed w))).
    exact Hw.
Qed.

(** With a [delay] of zero (or less) and a clock that starts at a time
    that is not negative and never goes back, every call is executed. *)
Theorem throttle_zero_delay (t0 : Z) (acts : list (Throttle.Action Args)) :
  delay <= 0 -> 0 <= t0 -> Throttle.monotone t0 acts ->
  Throttle.executed (Throttle.run delay acts (Throttle.init t0))
  = Throttle.invocations t0 acts.
Proof.
  intros Hd Ht Hm.
  assert (Hgen : forall (acts : list (Throttle.Action Args)) prev t,
             prev <= t -> Throttle.monotone t acts ->
             Throttle.spaced delay prev (Throttle.invocations t acts)).
  { clear acts Hm. induction acts as [|a acts IH]; intros prev t Hp Hm; [exact I|].
    destruct a as [args|t'];
      cbn [Throttle.invocations Throttle.spaced Throttle.monotone] in *.
    - split; [lia|]. apply IH; [lia | exact Hm].
    - destruct Hm as [Hle Hm]. apply IH; [lia | exact Hm]. }
  rewrite throttle_run_spaced; [reflexivity|]. apply Hgen; assumption.
Qed.

End ThrottleProperties.


(** ** The directives: properties *)

Section DebounceProperties.

Variable Args : Type.
Variable delay : Z.

Local Notation DWorld := (Debounce.World Args).

Lemma debounce_call_eq (args : Args) (w : DWorld) :
  Debounce.step delay (Debounce.Call args) w
  = Debounce.mkWorld (Debounce.clock w) (Some args)
      (S (Debounce.executeId w)) (Debounce.clock w)
      (Debounce.queue w ++ [S (Debounce.executeId w)])
      (Debounce.log w ++ [Debounce.Called (Debounce.clock w) args]).
Proof. reflexivity. Qed.

Lemma debounce_next_eq (lt : Z) (la : option Args) (id : nat) (c : Z)
    (cur : nat) (q : list nat) (lg : list (Debounce.Event Args)) :
  Debounce.step delay Debounce.RunNext (Debounce.mkWorld lt la id c (cur :: q) lg)
  = if negb (Nat.eqb cur id) then Debounce.mkWorld lt la id c q lg
    else if delay <=? c - lt
         then Debounce.mkWorld lt la id c q (lg ++ [Debounce.Executed c la])
         else Debounce.mkWorld lt la id c (q ++ [cur]) lg.
Proof.
  cbn [Debounce.step Debounce.queue].
  unfold exec, Debounce.checkTime, bind, gets. cbn.
  destruct (Nat.eqb cur id); cbn; [|reflexivity].
  destruct (delay <=? c - lt); reflexivity.
Qed.

Lemma debounce_run_app (a1 a2 : list (Debounce.Action Args)) (w : DWorld) :
  Debounce.run delay (a1 ++ a2) w
  = Debounce.run delay a2 (Debounce.run delay a1 w).
Proof. apply fold_left_app. Qed.

Lemma debounced_log_snoc (l : list (Debounce.Event Args)) :
  forall last f e,
    Debounce.debounced_log delay last f l ->
    match e with
    | Debounce.Called _ _ => True
    | Debounce.Executed t a =>
        Debounce.fired f l = false /\
        exists t0 a0, Debounce.last_call last l = Some (t0, a0) /\
                      a = Some a0 /\ delay <= t - t0
    end ->
    Debounce.debounced_log delay last f (l ++ [e]).
Proof.
  induction l as [|e0 l IH]; intros last f e Hl He.
  - destruct e as [t a|t a]; cbn in *; [exact I|].
    destruct He as (Hf & Hex). split; [exact Hf|]. split; [exact Hex | exact I].
  - destruct e0 as [t0 a0|t0 a0]; cbn [app Debounce.debounced_log] in *.
    + apply IH; [exact Hl | exact He].
    + destruct Hl as (Hf & Hex & Hl). split; [exact Hf|]. split; [exact Hex|].
      apply IH; [exact Hl | exact He].
Qed.

Lemma executions_app (l1 l2 : list (Debounce.Event Args)) :
  Debounce.executions (l1 ++ l2)
  = Debounce.executions l1 ++ Debounce.executions l2.
Proof.
  induction l1 as [|[t a|t a] l1 IH]; cbn; [reflexivity | exact IH |].
  now rewrite IH.
Qed.

Lemma count_occ_stale (q : list nat) (id : nat) :
  Forall (fun i => (i <= id)%nat) q -> count_occ Nat.eq_dec q (S id) = 0%nat.
Proof.
  intros H. apply count_occ_not_In. intros Hin.
  rewrite Forall_forall in H. specialize (H _ Hin). lia.
Qed.

Lemma consistent_init (t0 : Z) :
  Debounce.consistent delay (Debounce.init t0 : DWorld).
Proof.
  constructor; cbn; auto; lia.
Qed.

Ltac dfields :=
  cbn [Debounce.lastCallTime Debounce.lastArgs Debounce.executeId
       Debounce.clock Debounce.queue Debounce.log] in *.

Lemma fired_snoc (f : bool) (l : list (Debounce.Event Args))
    (e : Debounce.Event Args) :
  Debounce.fired f (l ++ [e])
  = match e with Debounce.Called _ _ => false | Debounce.Executed _ _ => true end.
Proof. unfold Debounce.fired. rewrite fold_left_app. reflexivity. Qed.

Lemma consistent_step (a : Debounce.Action Args) (w : DWorld) :
  Debounce.consistent delay w ->
  Debounce.consistent delay (Debounce.step delay a w).
Proof.
  intros [Hlog Hlast Hids Hfresh Hargs Hlive].
  destruct a as [args|t|].
  - rewrite debounce_call_eq. constructor; dfields.
    + apply debounced_log_snoc; [exact Hlog | exact I].
    + unfold Debounce.last_call. rewrite fold_left_app. reflexivity.
    + apply Forall_app. split.
      * eapply Forall_impl; [|exact Hids]. cbn beta. intros; lia.
      * constructor; [lia | constructor].
    + intros Hz; discriminate Hz.
    + intros _ Hz; discriminate Hz.
    + intros _. unfold Debounce.live. dfields.
      rewrite fired_snoc, count_occ_app, count_occ_stale by exact Hids.
      rewrite count_occ_cons_eq by reflexivity. reflexivity.
  - constructor; cbn [Debounce.step]; dfields; assumption.
  - destruct w as [lt la id c q lg]. unfold Debounce.live in Hlive. dfields.
    destruct q as [|cur q]; [constructor; dfields; assumption|].
    rewrite debounce_next_eq. inversion Hids as [|? ? Hcur Hq]; subst.
    destruct (Nat.eqb_spec cur id) as [->|Hne]; cbn [negb].
    + destruct id as [|id];
        [destruct (Hfresh eq_refl) as (_ & Hz & _); discriminate Hz|].
      specialize (Hlive ltac:(lia)). specialize (Hargs ltac:(lia)).
      rewrite count_occ_cons_eq in Hlive by reflexivity.
      destruct (Debounce.fired false lg) eqn:Hf; [discriminate Hlive|].
      injection Hlive as Hlive.
      destruct (Z.leb_spec delay (c - lt)).
      * constructor; dfields.
        -- apply debounced_log_snoc; [exact Hlog|]. split; [exact Hf|].
           destruct la as [a|]; [|congruence].
           exists lt, a. split; [exact Hlast|]. split; [reflexivity | assumption].
        -- unfold Debounce.last_call in *. rewrite fold_left_app. exact Hlast.
        -- exact Hq.
        -- intros Hz; discriminate Hz.
        -- intros _. exact Hargs.
        -- intros _. unfold Debounce.live. dfields.
           rewrite fired_snoc. exact Hlive.
      * constructor; dfields; auto.
        -- apply Forall_app. split; [exact Hq | constructor; [lia | constructor]].
        -- intros Hz; discriminate Hz.
        -- intros _. unfold Debounce.live. dfields.
           rewrite Hf, count_occ_app, Hlive.
           rewrite count_occ_cons_eq by reflexivity. reflexivity.
    + constructor; dfields; auto.
      * intros Hz. destruct (Hfresh Hz) as (_ & Hz' & _). discriminate Hz'.
      * intros Hz. specialize (Hlive Hz). unfold Debounce.live. dfields.
        rewrite count_occ_cons_neq in Hlive by exact Hne. exact Hlive.
Qed.

Lemma consistent_run (acts : list (Debounce.Action Args)) :
  forall w : DWorld, Debounce.consistent delay w ->
                     Debounce.consistent delay (Debounce.run delay acts w).
Proof.
  induction acts as [|a acts IH]; intros w Hw; [exact Hw|].
  apply IH, consistent_step, Hw.
Qed.

(** The host runs every waiting callback once when none of them belongs
    to the latest call: they all return at once. *)
Lemma drain_stale (lt : Z) (la : option Args) (id : nat) (c : Z)
    (lg : list (Debounce.Event Args)) (q : list nat) :
  count_occ Nat.eq_dec q id = 0%nat ->
  Debounce.run delay (repeat Debounce.RunNext (length q))
    (Debounce.mkWorld lt la id c q lg)
  = Debounce.mkWorld lt la id c [] lg.
Proof.
  induction q as [|cur q IH]; intros Hc; [reflexivity|].
  cbn [length repeat Debounce.run fold_left]. rewrite debounce_next_eq.
  destruct (Nat.eq_dec cur id) as [->|Hne];
    [rewrite count_occ_cons_eq in Hc by reflexivity; discriminate Hc|].
  rewrite count_occ_cons_neq in Hc by exact Hne.
  apply Nat.eqb_neq in Hne. rewrite Hne. cbn [negb]. apply IH, Hc.
Qed.

Lemma drain_live (lt : Z) (la : option Args) (id : nat) (c : Z)
    (lg : list (Debounce.Event Args)) (q : list nat) :
  count_occ Nat.eq_dec q id = 1%nat -> delay <= c - lt ->
  Debounce.run delay (repeat Debounce.RunNext (length q))
    (Debounce.mkWorld lt la id c q lg)
  = Debounce.mkWorld lt la id c [] (lg ++ [Debounce.Executed c la]).
Proof.
  intros Hc Ht. induction q as [|cur q IH]; [discriminate Hc|].
  cbn [length repeat Debounce.run fold_left]. rewrite debounce_next_eq.
  destruct (Nat.eq_dec cur id) as [->|Hne].
  - rewrite count_occ_cons_eq in Hc by reflexivity.
    rewrite Nat.eqb_refl. cbn [negb].
    destruct (Z.leb_spec delay (c - lt)); [|lia].
    apply drain_stale. now injection Hc.
  - rewrite count_occ_cons_neq in Hc by exact Hne.
    apply Nat.eqb_neq in Hne. rewrite Hne. cbn [negb]. apply IH, Hc.
Qed.

(** Whatever the calls, the clock and the host do, [fn] runs only after a
    call of the debounced function, at least [delay] after it, with the
    arguments of that call, and at most once for it: the calls that
    another call follows before they have run never run. *)
Theorem debounce_trace (acts : list (Debounce.Action Args)) (t0 : Z) :
  Debounce.debounced_log delay None false
    (Debounce.log (Debounce.run delay acts (Debounce.init t0))).
Proof.
  apply Debounce.c_log with (delay := delay), consistent_run, consistent_init.
Qed.

(** The latest call is never lost and never waits twice: after any
    history with a call, either [fn] has run for the latest call and no
    callback of that call waits, or it has not and exactly one does.
    Every other waiting callback belongs to an older call. *)
Theorem debounce_pending (acts : list (Debounce.Action Args)) (t0 : Z)
    (args : Args) (more : list (Debounce.Action Args)) :
  Debounce.live
    (Debounce.run delay (acts ++ Debounce.Call args :: more) (Debounce.init t0))
  = (if Debounce.fired false
          (Debounce.log (Debounce.run delay (acts ++ Debounce.Call args :: more)
                           (Debounce.init t0)))
     then 0%nat else 1%nat) /\
  Forall (fun id => (id <= Debounce.executeId
                        (Debounce.run delay (acts ++ Debounce.Call args :: more)
                           (Debounce.init t0)))%nat)
         (Debounce.queue
            (Debounce.run delay (acts ++ Debounce.Call args :: more)
               (Debounce.init t0))).
Proof.
  pose proof (consistent_run (acts ++ Debounce.Call args :: more) _
                (consistent_init t0)) as Hc.
  split; [|apply (Debounce.c_ids _ _ _ Hc)].
  apply (Debounce.c_live _ _ _ Hc). clear Hc.
  rewrite debounce_run_app. cbn [Debounce.run fold_left].
  rewrite debounce_call_eq.
  set (w1 := Debounce.mkWorld _ _ _ _ _ _).
  assert (H1 : (0 < Debounce.executeId w1)%nat) by (cbn; lia).
  clearbody w1. revert w1 H1.
  induction more as [|a more IH]; intros w1 H1; [exact H1|].
  cbn [fold_left]. apply IH.
  destruct a as [x|t|]; [rewrite debounce_call_eq; cbn; lia | exact H1 |].
  destruct w1 as [lt la id c q lg]. destruct q as [|cur q]; [exact H1|].
  rewrite debounce_next_eq. cbn in H1.
  destruct (negb (Nat.eqb cur id)); [exact H1|].
  destruct (delay <=? c - lt); exact H1.
Qed.

(** Once [delay] has passed since the latest call and [fn] has not run
    for it, letting the host run the waiting callbacks once each runs
    [fn] exactly once, with the arguments of that call, and leaves no
    callback waiting. *)
Theorem debounce_fires_after_quiet (acts : list (Debounce.Action Args))
    (t0 : Z) (w : DWorld) :
  w = Debounce.run delay acts (Debounce.init t0) ->
  (0 < Debounce.executeId w)%nat ->
  Debounce.fired false (Debounce.log w) = false ->
  delay <= Debounce.clock w - Debounce.lastCallTime w ->
  exists a,
    Debounce.last_call None (Debounce.log w) = Some (Debounce.lastCallTime w, a) /\
    Debounce.run delay
      (repeat Debounce.RunNext (length (Debounce.queue w))) w
    = Debounce.mkWorld (Debounce.lastCallTime w) (Some a)
        (Debounce.executeId w) (Debounce.clock w) []
        (Debounce.log w ++ [Debounce.Executed (Debounce.clock w) (Some a)]).
Proof.
  intros -> Hid Hf Ht.
  pose proof (consistent_run acts _ (consistent_init t0)) as Hc.
  destruct Hc as [_ Hlast _ _ Hargs Hlive].
  set (w := Debounce.run delay acts (Debounce.init t0)) in *.
  specialize (Hlive Hid). specialize (Hargs Hid). rewrite Hf in Hlive.
  destruct w as [lt la id c q lg]. cbn in *.
  destruct la as [a|]; [|congruence]. exists a. split; [exact Hlast|].
  apply drain_live; assumption.
Qed.

(** For less than [delay] after a call, [fn] does not run, whatever the
    host runs and however many more calls are made. *)
Theorem debounce_silent_within_delay (w0 : DWorld) (args : Args)
    (seg : list (Debounce.Action Args)) :
  0 < delay ->
  Debounce.clock_within (Debounce.clock w0) (Debounce.clock w0 + delay) seg ->
  Debounce.executions
    (Debounce.log (Debounce.run delay seg
                     (Debounce.step delay (Debounce.Call args) w0)))
  = Debounce.executions (Debounce.log w0).
Proof.
  intros Hd Hseg. rewrite debounce_call_eq.
  set (tc := Debounce.clock w0) in *.
  set (w1 := Debounce.mkWorld _ _ _ _ _ _).
  assert (H1 : tc <= Debounce.lastCallTime w1 /\
               tc <= Debounce.clock w1 < tc + delay /\
               Debounce.executions (Debounce.log w1)
               = Debounce.executions (Debounce.log w0)).
  { subst w1 tc. dfields. rewrite executions_app. cbn [Debounce.executions].
    rewrite app_nil_r. split; [lia|]. split; [lia | reflexivity]. }
  clearbody w1. revert w1 H1 Hseg.
  induction seg as [|a seg IH]; intros w1 (Hl & Hc & He) Hseg; [exact He|].
  cbn [Debounce.run fold_left].
  destruct a as [x|t|]; cbn [Debounce.clock_within] in Hseg.
  - apply IH; [|exact Hseg]. rewrite debounce_call_eq. dfields.
    rewrite executions_app. cbn [Debounce.executions]. rewrite app_nil_r.
    split; [lia|]. split; [lia | exact He].
  - destruct Hseg as (Ht & Hseg). apply IH; [|exact Hseg].
    cbn [Debounce.step]. dfields. split; [lia|]. split; [lia | exact He].
  - apply IH; [|exact Hseg].
    destruct w1 as [lt la id c q lg]. dfields.
    destruct q as [|cur q];
      [cbn [Debounce.step]; dfields; split; [lia|]; split; [lia | exact He]|].
    rewrite debounce_next_eq.
    destruct (negb (Nat.eqb cur id));
      [dfields; split; [lia|]; split; [lia | exact He]|].
    destruct (Z.leb_spec delay (c - lt)); [lia|].
    dfields. split; [lia|]. split; [lia | exact He].
Qed.

End DebounceProperties.

Section NumberOnlyProperties.
Import NumberOnly.

(** *** Strings *)

Lemma is_dot_true (c : Z) : is_dot c = true -> c = 46.
Proof. unfold is_dot. apply Z.eqb_eq. Qed.

Lemma filter_shrinking (p : Z -> bool) : shrinking (filter p).
Proof.
  intros s. split; [apply filter_length_le|].
  induction s as [|c s IH]; [reflexivity|]. cbn.
  destruct (p c); cbn; intros H.
  - f_equal. apply IH. lia.
  - pose proof (filter_length_le p s). lia.
Qed.

Lemma firstn_shrinking (n : nat) : shrinking (firstn n).
Proof.
  intros s. rewrite length_firstn. split; [lia|].
  intros H. apply firstn_all2. lia.
Qed.

Lemma slice0_shrinking (end_ : Z) : shrinking (fun s => slice0 s end_).
Proof. intros s. unfold slice0. apply firstn_shrinking. Qed.

Lemma strip_leading_dot_shrinking : shrinking strip_leading_dot.
Proof.
  intros [|c s]; [split; auto|]. cbn. destruct (is_dot c); cbn; split; auto; lia.
Qed.

Lemma shrinking_compose (f g : JsString -> JsString) :
  shrinking f -> shrinking g -> shrinking (fun s => f (g s)).
Proof.
  intros Hf Hg s. destruct (Hf (g s)) as [Hf1 Hf2]. destruct (Hg s) as [Hg1 Hg2].
  split; [lia|]. intros H.
  assert (E : g s = s) by (apply Hg2; lia). rewrite E in *. apply Hf2. exact H.
Qed.

(** *** The first dot *)

Lemma cut_at_dot_spec (s : JsString) :
  forall pre post,
    cut_at_dot s = (pre, post) ->
    s = pre ++ match post with Some r => 46 :: r | None => [] end /\
    strip_dots pre = pre /\
    indexOf_dot s = match post with Some _ => Z.of_nat (length pre) | None => -1 end.
Proof.
  induction s as [|c s IH]; intros pre post H; cbn in H.
  - injection H as <- <-. repeat split.
  - destruct (is_dot c) eqn:Hc.
    + injection H as <- <-. apply is_dot_true in Hc as Hc'. subst c.
      cbn. repeat split.
    + destruct (cut_at_dot s) as [p r]. injection H as <- <-.
      destruct (IH p r eq_refl) as (E & Hp & Hi).
      cbn [app length strip_dots filter indexOf_dot]. rewrite Hc. cbn [negb].
      fold (strip_dots p). rewrite Hp, Hi. split; [now rewrite E at 1|].
      split; [reflexivity|]. destruct r; [|reflexivity].
      destruct (Z.ltb_spec (Z.of_nat (length p)) 0); lia.
Qed.

Lemma cut_at_dot_app (pre post : JsString) :
  strip_dots pre = pre -> cut_at_dot (pre ++ 46 :: post) = (pre, Some post).
Proof.
  induction pre as [|c pre IH]; intros H; [reflexivity|].
  cbn in *. destruct (is_dot c) eqn:Hc; cbn in H.
  - pose proof (filter_length_le (fun c => negb (is_dot c)) pre) as Hl.
    apply (f_equal (@length Z)) in H. cbn in H. fold (strip_dots pre) in H.
    unfold strip_dots in H. lia.
  - injection H as H. fold (strip_dots pre) in H. now rewrite IH.
Qed.

Lemma cut_at_dot_none (s : JsString) :
  strip_dots s = s -> cut_at_dot s = (s, None).
Proof.
  induction s as [|c s IH]; intros H; [reflexivity|].
  cbn in *. destruct (is_dot c) eqn:Hc; cbn in H.
  - pose proof (filter_length_le (fun c => negb (is_dot c)) s) as Hl.
    apply (f_equal (@length Z)) in H. cbn in H. lia.
  - injection H as H. now rewrite IH.
Qed.

Lemma substring_prefix (s : JsString) (n : nat) :
  (n <= length s)%nat -> substring s 0 (Z.of_nat n) = firstn n s.
Proof.
  intros H. unfold substring.
  replace (Z.min (Z.max 0 0) (Z.of_nat (length s))) with 0 by lia.
  replace (Z.min (Z.max (Z.of_nat n) 0) (Z.of_nat (length s))) with (Z.of_nat n)
    by lia.
  replace (Z.to_nat (Z.min 0 (Z.of_nat n))) with O by lia.
  replace (Z.to_nat (Z.max 0 (Z.of_nat n) - Z.min 0 (Z.of_nat n))) with n by lia.
  reflexivity.
Qed.

Lemma substring_suffix (s : JsString) (n : nat) :
  (n <= length s)%nat -> substring_from s (Z.of_nat n) = skipn n s.
Proof.
  intros H. unfold substring_from, substring.
  replace (Z.min (Z.max (Z.of_nat n) 0) (Z.of_nat (length s))) with (Z.of_nat n)
    by lia.
  replace (Z.min (Z.max (Z.of_nat (length s)) 0) (Z.of_nat (length s)))
    with (Z.of_nat (length s)) by lia.
  replace (Z.to_nat (Z.min (Z.of_nat n) (Z.of_nat (length s)))) with n by lia.
  replace (Z.to_nat (Z.max (Z.of_nat n) (Z.of_nat (length s))
                     - Z.min (Z.of_nat n) (Z.of_nat (length s))))
    with (length s - n)%nat by lia.
  apply firstn_all2. rewrite length_skipn. lia.
Qed.

(** [keep_first_dot] in closed form. *)
Lemma keep_first_dot_eq (s : JsString) :
  keep_first_dot s =
  match cut_at_dot s with
  | (pre, Some post) => pre ++ 46 :: strip_dots post
  | (_, None) => s
  end.
Proof.
  unfold keep_first_dot.
  destruct (cut_at_dot s) as [pre post] eqn:E.
  destruct (cut_at_dot_spec s pre post E) as (Es & Hp & Hi). rewrite Hi.
  destruct post as [post|]; [|reflexivity].
  destruct (Z.eqb_spec (Z.of_nat (length pre)) (-1)); [lia|].
  replace (Z.of_nat (length pre) + 1) with (Z.of_nat (S (length pre))) by lia.
  assert (Hl : (S (length pre) <= length s)%nat)
    by (rewrite Es, length_app; cbn; lia).
  rewrite substring_prefix, substring_suffix by exact Hl.
  rewrite Es at 1 2.
  replace (S (length pre)) with (length (pre ++ [46])) at 1 2
    by (rewrite length_app; cbn; lia).
  change (pre ++ 46 :: post) with (pre ++ [46] ++ post).
  rewrite app_assoc, firstn_app, skipn_app, Nat.sub_diag, firstn_all, skipn_all.
  cbn. now rewrite app_nil_r, <- app_assoc.
Qed.

Lemma keep_first_dot_shrinking : shrinking keep_first_dot.
Proof.
  intros s. rewrite keep_first_dot_eq.
  destruct (cut_at_dot s) as [pre post] eqn:E.
  destruct (cut_at_dot_spec s pre post E) as (Es & _ & _).
  destruct post as [post|]; [|split; auto].
  destruct (filter_shrinking (fun c => negb (is_dot c)) post) as [H1 H2].
  fold (strip_dots post) in H1, H2.
  rewrite Es, !length_app. cbn [length]. split; [lia|].
  intros H. rewrite H2 by lia. reflexivity.
Qed.

Lemma limit_decimals_shrinking (limit : Z) : shrinking (limit_decimals limit).
Proof.
  intros s. unfold limit_decimals.
  destruct (_ && _); [apply slice0_shrinking | split; auto].
Qed.

Lemma integer_filter_shrinking (limit : Z) : shrinking (integer_filter limit).
Proof.
  unfold integer_filter.
  apply (shrinking_compose (fun s => slice0 s limit) (filter is_digit)).
  - apply slice0_shrinking.
  - apply filter_shrinking.
Qed.

Lemma decimal_filter_shrinking (limit : Z) : shrinking (decimal_filter limit).
Proof.
  unfold decimal_filter.
  apply (shrinking_compose (limit_decimals limit)
           (fun s => keep_first_dot (strip_leading_dot (filter is_decimal s)))).
  - apply limit_decimals_shrinking.
  - apply (shrinking_compose keep_first_dot
             (fun s => strip_leading_dot (filter is_decimal s))).
    + apply keep_first_dot_shrinking.
    + apply (shrinking_compose strip_leading_dot (filter is_decimal)).
      * apply strip_leading_dot_shrinking.
      * apply filter_shrinking.
Qed.

(** *** handleInput *)

Lemma handleInput_shrinking (f : JsString -> JsString) :
  shrinking f ->
  forall fuel w,
    (length (value w) <= fuel)%nat ->
    exists w',
      handleInput f fuel w = Some w' /\
      isComposing w' = isComposing w /\
      (isComposing w = false -> f (value w') = value w') /\
      (isComposing w = true -> w' = w) /\
      (dispatched w <= dispatched w')%nat /\
      (dispatched w' + length (value w') <= dispatched w + length (value w))%nat.
Proof.
  intros Hf. induction fuel as [|fuel IH]; intros w Hl.
  - exists w.
    assert (E : handleInput f 0 w = Some w).
    { cbn. destruct (isComposing w); [reflexivity|].
      destruct (list_eq_dec Z.eq_dec (f (value w)) (value w)) as [_|Hne];
        [reflexivity|].
      exfalso. apply Hne. apply (Hf (value w)).
      destruct (Hf (value w)) as [Hle _]. lia. }
    rewrite E. repeat split; auto.
    intros Hc. destruct (Hf (value w)) as [Hle Heq]. apply Heq. lia.
  - cbn [handleInput]. destruct (isComposing w) eqn:Hc.
    + exists w. repeat split; auto; discriminate.
    + destruct (list_eq_dec Z.eq_dec (f (value w)) (value w)) as [He|Hne].
      * exists w. repeat split; auto; discriminate.
      * destruct (Hf (value w)) as [Hle Heq].
        assert (Hlt : (length (f (value w)) < length (value w))%nat).
        { destruct (Nat.eq_dec (length (f (value w))) (length (value w)));
            [exfalso; auto | lia]. }
        match goal with
        | |- context [handleInput f fuel ?w1] =>
            destruct (IH w1) as (w' & E & H1 & H2 & H3 & H4 & H5)
        end; [cbn; lia|].
        cbn [isComposing value dispatched] in *.
        exists w'. rewrite E. repeat split; auto; try discriminate; lia.
Qed.

(** The input event that [handleInput] dispatches after changing the
    field comes back to [handleInput].  This cannot go on for ever: with
    either directive and any limit, the calls end after at most as many
    dispatched events as the field had characters, and outside an IME
    composition they leave in the field a value that the filter of the
    directive does not change.  During a composition nothing is done. *)
Theorem input_event_settles (limit : Z) (w : Input) (extra : nat) :
  (exists w',
     handleInput (integer_filter limit) (length (value w) + extra) w = Some w' /\
     (isComposing w = false -> integer_filter limit (value w') = value w') /\
     (isComposing w = true -> w' = w) /\
     (dispatched w' <= dispatched w + length (value w))%nat) /\
  (exists w',
     handleInput (decimal_filter limit) (length (value w) + extra) w = Some w' /\
     (isComposing w = false -> decimal_filter limit (value w') = value w') /\
     (isComposing w = true -> w' = w) /\
     (dispatched w' <= dispatched w + length (value w))%nat).
Proof.
  split.
  - destruct (handleInput_shrinking _ (integer_filter_shrinking limit)
                (length (value w) + extra) w)
      as (w' & E & _ & H2 & H3 & _ & H5); [lia|].
    exists w'. repeat split; auto. lia.
  - destruct (handleInput_shrinking _ (decimal_filter_shrinking limit)
                (length (value w) + extra) w)
      as (w' & E & _ & H2 & H3 & _ & H5); [lia|].
    exists w'. repeat split; auto. lia.
Qed.

(** *** integerOnly *)

Lemma forallb_firstn (p : Z -> bool) (n : nat) (l : JsString) :
  forallb p l = true -> forallb p (firstn n l) = true.
Proof.
  revert n. induction l as [|c l IH]; intros [|n] H; try reflexivity.
  cbn in *. apply andb_prop in H as [H1 H2]. now rewrite H1, IH.
Qed.

Lemma slice0_nonneg (s : JsString) (end_ : Z) :
  0 <= end_ -> slice0 s end_ = firstn (Z.to_nat end_) s.
Proof.
  intros H. unfold slice0. destruct (Z.ltb_spec end_ 0); [lia|].
  destruct (Z.le_gt_cases end_ (Z.of_nat (length s))).
  - now replace (Z.min end_ (Z.of_nat (length s))) with end_ by lia.
  - replace (Z.min end_ (Z.of_nat (length s))) with (Z.of_nat (length s)) by lia.
    rewrite Nat2Z.id, firstn_all. symmetry. apply firstn_all2. lia.
Qed.

Lemma integer_filter_digits (limit : Z) (s : JsString) :
  forallb is_digit (integer_filter limit s) = true.
Proof. unfold integer_filter, slice0. apply forallb_firstn, forallb_filter. Qed.

Lemma integer_filter_length (limit : Z) (s : JsString) :
  0 <= limit -> Z.of_nat (length (integer_filter limit s)) <= limit.
Proof.
  intros Hl. unfold integer_filter.
  rewrite slice0_nonneg, length_firstn by exact Hl. lia.
Qed.

Lemma integer_filter_fix (limit : Z) (r : JsString) :
  0 <= limit -> forallb is_digit r = true -> Z.of_nat (length r) <= limit ->
  integer_filter limit r = r.
Proof.
  intros Hl H1 H2. unfold integer_filter.
  rewrite forallb_filter_id, slice0_nonneg by assumption.
  apply firstn_all2. lia.
Qed.

(** What [integerOnly] leaves in the field holds digits only, whatever
    the limit.  With a limit that is not negative it has at most [limit]
    characters, filtering it again changes nothing, and the values that
    the directive leaves alone are exactly the strings of at most [limit]
    digits. *)
Theorem integer_filter_result (limit : Z) (s : JsString) :
  forallb is_digit (integer_filter limit s) = true /\
  (0 <= limit ->
   Z.of_nat (length (integer_filter limit s)) <= limit /\
   integer_filter limit (integer_filter limit s) = integer_filter limit s /\
   (integer_filter limit s = s <->
    forallb is_digit s = true /\ Z.of_nat (length s) <= limit)).
Proof.
  split; [apply integer_filter_digits|]. intros Hl.
  split; [now apply integer_filter_length|].
  split; [apply integer_filter_fix;
          [exact Hl | apply integer_filter_digits | now apply integer_filter_length]|].
  split.
  - intros E. rewrite <- E.
    split; [apply integer_filter_digits | now apply integer_filter_length].
  - intros [H1 H2]. now apply integer_filter_fix.
Qed.

(** One input event on [integerOnly], with a limit that is not negative:
    the field ends up with the filtered value after at most one
    dispatched event, the nested call finding nothing to change.  The
    cursor moves back by the number of characters removed, wherever they
    were, and not before the start of the field. *)
Theorem integer_input_once (limit : Z) (w : Input) (fuel : nat) :
  0 <= limit -> isComposing w = false ->
  0 <= selectionStart w <= Z.of_nat (length (value w)) ->
  exists w',
    handleInput (integer_filter limit) (S fuel) w = Some w' /\
    value w' = integer_filter limit (value w) /\
    isComposing w' = false /\
    (value w' = value w -> w' = w) /\
    (value w' <> value w ->
     dispatched w' = S (dispatched w) /\
     selectionStart w' =
       if selectionStart w =? 0 then 0
       else Z.max 0 (selectionStart w
                     - (Z.of_nat (length (value w)) - Z.of_nat (length (value w'))))) /\
    0 <= selectionStart w' <= Z.of_nat (length (value w')).
Proof.
  intros Hl Hc Hsel. cbn [handleInput]. rewrite Hc.
  destruct (list_eq_dec Z.eq_dec (integer_filter limit (value w)) (value w))
    as [He|Hne].
  - exists w. split; [reflexivity|]. split; [symmetry; exact He|].
    split; [exact Hc|]. split; [reflexivity|].
    split; [intros Hn; now elim Hn | exact Hsel].
  - assert (Hidem : integer_filter limit (integer_filter limit (value w))
                    = integer_filter limit (value w)).
    { apply integer_filter_fix;
        [exact Hl | apply integer_filter_digits | now apply integer_filter_length]. }
    destruct (integer_filter_shrinking limit (value w)) as [Hle _].
    set (v' := integer_filter limit (value w)) in *.
    set (pos := if selectionStart w =? 0 then 0
                else Z.max 0 (selectionStart w
                              - (Z.of_nat (length (value w)) - Z.of_nat (length v')))).
    assert (Hpos : 0 <= pos <= Z.of_nat (length v')).
    { subst pos. destruct (selectionStart w =? 0); lia. }
    assert (E : handleInput (integer_filter limit) fuel
                  (mkInput false v' (Z.min pos (Z.of_nat (length v')))
                           (S (dispatched w)))
                = Some (mkInput false v' pos (S (dispatched w)))).
    { replace (Z.min pos (Z.of_nat (length v'))) with pos by lia.
      destruct fuel; cbn [handleInput isComposing value];
        fold v'; rewrite Hidem;
        destruct (list_eq_dec Z.eq_dec v' v'); congruence. }
    fold v' pos. rewrite E. eexists. split; [reflexivity|].
    cbn [value isComposing dispatched selectionStart].
    split; [reflexivity|]. split; [reflexivity|].
    split; [intros Hv; now elim Hne|].
    split; [intros _; split; reflexivity | exact Hpos].
Qed.

(** *** decimalOnly *)

Lemma strip_dots_count (l : JsString) :
  strip_dots l = l -> count_occ Z.eq_dec l 46 = 0%nat.
Proof.
  induction l as [|c l IH]; intros H; [reflexivity|].
  cbn in H. destruct (is_dot c) eqn:Hc; cbn in H.
  - pose proof (filter_length_le (fun c => negb (is_dot c)) l) as Hl.
    apply (f_equal (@length Z)) in H. cbn in H. lia.
  - injection H as H. cbn. destruct (Z.eq_dec c 46) as [->|_]; [discriminate Hc|].
    now apply IH.
Qed.

Lemma count_strip_dots (l : JsString) :
  count_occ Z.eq_dec l 46 = 0%nat -> strip_dots l = l.
Proof.
  induction l as [|c l IH]; intros H; [reflexivity|].
  cbn in *. destruct (Z.eq_dec c 46) as [->|Hne]; [discriminate|].
  destruct (is_dot c) eqn:Hc; [apply is_dot_true in Hc; contradiction|].
  cbn. f_equal. now apply IH.
Qed.

Lemma strip_dots_idem (l : JsString) : strip_dots (strip_dots l) = strip_dots l.
Proof. unfold strip_dots. apply forallb_filter_id, forallb_filter. Qed.

Lemma strip_dots_firstn (n : nat) (l : JsString) :
  strip_dots l = l -> strip_dots (firstn n l) = firstn n l.
Proof.
  intros H. unfold strip_dots in *. apply forallb_filter_id, forallb_firstn.
  apply filter_length_forallb. now rewrite H.
Qed.

Lemma forallb_strip_dots (p : Z -> bool) (l : JsString) :
  forallb p l = true -> forallb p (strip_dots l) = true.
Proof.
  unfold strip_dots. induction l as [|c l IH]; intros H; [reflexivity|].
  cbn in *. apply andb_prop in H as [H1 H2].
  destruct (is_dot c); cbn; [apply IH, H2 | rewrite H1; apply IH, H2].
Qed.

Lemma forallb_strip_leading_dot (p : Z -> bool) (l : JsString) :
  forallb p l = true -> forallb p (strip_leading_dot l) = true.
Proof.
  destruct l as [|c l]; intros H; [reflexivity|].
  cbn in *. apply andb_prop in H as [H1 H2].
  destruct (is_dot c); cbn; [exact H2 | now rewrite H1, H2].
Qed.

(** [decimal_filter] in closed form, for a limit that is not negative. *)
Lemma decimal_filter_eq (limit : Z) (s : JsString) :
  0 <= limit ->
  decimal_filter limit s =
  match cut_at_dot (strip_leading_dot (filter is_decimal s)) with
  | (pre, Some post) => pre ++ 46 :: firstn (Z.to_nat limit) (strip_dots post)
  | (pre, None) => pre
  end.
Proof.
  intros Hl. unfold decimal_filter.
  set (s1 := strip_leading_dot (filter is_decimal s)).
  rewrite keep_first_dot_eq.
  destruct (cut_at_dot s1) as [pre post] eqn:E.
  destruct (cut_at_dot_spec s1 pre post E) as (Es & Hp & Hi).
  destruct post as [post|].
  - set (sp := strip_dots post).
    pose proof (cut_at_dot_spec _ _ _ (cut_at_dot_app pre sp Hp)) as (_ & _ & Hi').
    unfold limit_decimals. rewrite Hi'.
    destruct (Z.eqb_spec (Z.of_nat (length pre)) (-1)); [lia|]. cbn [negb andb].
    rewrite length_app. cbn [length].
    destruct (Z.ltb_spec limit
                (Z.of_nat (length pre + S (length sp)) - Z.of_nat (length pre) - 1)).
    + rewrite slice0_nonneg by lia. rewrite firstn_app.
      rewrite firstn_all2 by lia.
      replace (Z.to_nat (Z.of_nat (length pre) + limit + 1) - length pre)%nat
        with (S (Z.to_nat limit)) by lia.
      reflexivity.
    + rewrite (firstn_all2 (n := Z.to_nat limit)) by lia. reflexivity.
  - unfold limit_decimals. rewrite Hi. cbn. rewrite Es. now rewrite app_nil_r.
Qed.

(** The facts about a result of [decimal_filter] that do not depend on
    how it starts. *)
Lemma decimal_filter_shape (limit : Z) (s : JsString) :
  0 <= limit ->
  forallb is_decimal (decimal_filter limit s) = true /\
  (count_occ Z.eq_dec (decimal_filter limit s) 46%Z <= 1)%nat /\
  (forall i, indexOf_dot (decimal_filter limit s) = i -> 0 <= i ->
             Z.of_nat (length (decimal_filter limit s)) - i - 1 <= limit).
Proof.
  intros Hl. rewrite decimal_filter_eq by exact Hl.
  set (s1 := strip_leading_dot (filter is_decimal s)).
  assert (H1 : forallb is_decimal s1 = true)
    by apply forallb_strip_leading_dot, forallb_filter.
  destruct (cut_at_dot s1) as [pre post] eqn:E.
  destruct (cut_at_dot_spec s1 pre post E) as (Es & Hp & _).
  rewrite Es, forallb_app in H1. apply andb_prop in H1 as [Hpre Hpost].
  destruct post as [post|].
  - cbn in Hpost.
    set (sp := firstn (Z.to_nat limit) (strip_dots post)).
    assert (Hsp : strip_dots sp = sp)
      by (apply strip_dots_firstn, strip_dots_idem).
    split; [|split].
    + rewrite forallb_app, Hpre. cbn.
      apply forallb_firstn, forallb_strip_dots. exact Hpost.
    + rewrite count_occ_app. cbn. rewrite !strip_dots_count by assumption.
      cbn. lia.
    + intros i Hi _.
      pose proof (cut_at_dot_spec _ _ _ (cut_at_dot_app pre sp Hp)) as (_ & _ & Hi').
      rewrite Hi' in Hi. subst i. rewrite length_app. cbn [length].
      subst sp. rewrite length_firstn. lia.
  - split; [exact Hpre|]. split.
    + rewrite strip_dots_count by exact Hp. lia.
    + intros i Hi Hi0.
      pose proof (cut_at_dot_spec _ _ _ (cut_at_dot_none pre Hp)) as (_ & _ & Hi').
      rewrite Hi' in Hi. lia.
Qed.

(** A result of [decimal_filter] starts with a dot exactly when the
    argument, once its other characters are removed, starts with two. *)
Lemma decimal_filter_leading_dot (limit : Z) (s : JsString) :
  0 <= limit ->
  (exists t, decimal_filter limit s = 46 :: t) <->
  (exists t, filter is_decimal s = 46 :: 46 :: t).
Proof.
  intros Hl. rewrite decimal_filter_eq by exact Hl.
  destruct (filter is_decimal s) as [|c s0] eqn:E0.
  - cbn. split; intros [t H]; discriminate.
  - cbn [strip_leading_dot]. destruct (is_dot c) eqn:Hc.
    + apply is_dot_true in Hc as ->.
      destruct s0 as [|c' s0'].
      * cbn. split; intros [t H]; discriminate.
      * cbn [cut_at_dot]. destruct (is_dot c') eqn:Hc'.
        -- apply is_dot_true in Hc' as ->. cbn. split; intros _; eauto.
        -- destruct (cut_at_dot s0') as [p r].
           assert (c' <> 46) by (intros ->; discriminate Hc').
           split; intros [t H0]; exfalso; destruct r; cbn in H0; congruence.
    + cbn [cut_at_dot]. rewrite Hc. destruct (cut_at_dot s0) as [p r].
      assert (c <> 46) by (intros ->; discriminate Hc).
      split; intros [t H0]; exfalso; destruct r; cbn in H0; congruence.
Qed.

Lemma decimal_ok_fix (limit : Z) (s : JsString) :
  0 <= limit -> decimal_ok limit s -> decimal_filter limit s = s.
Proof.
  intros Hl (Hd & Hc & Hh & Hn). rewrite decimal_filter_eq by exact Hl.
  rewrite forallb_filter_id by exact Hd.
  assert (E1 : strip_leading_dot s = s).
  { destruct s as [|c s']; [reflexivity|]. cbn. now rewrite Hh. }
  rewrite E1. destruct (cut_at_dot s) as [pre post] eqn:E.
  destruct (cut_at_dot_spec s pre post E) as (Es & Hp & Hi).
  destruct post as [post|]; [|now rewrite Es, app_nil_r].
  assert (Hpost : strip_dots post = post).
  { apply count_strip_dots. rewrite Es, count_occ_app in Hc. cbn in Hc. lia. }
  specialize (Hn _ Hi ltac:(lia)). rewrite Es, length_app in Hn. cbn in Hn.
  rewrite Hpost, firstn_all2 by lia. symmetry. exact Es.
Qed.

(** Filtering a result of [decimal_filter] once more gives a value that
    the filter leaves alone. *)
Lemma decimal_filter_second_pass (limit : Z) (r : JsString) :
  0 <= limit ->
  forallb is_decimal r = true ->
  (count_occ Z.eq_dec r 46%Z <= 1)%nat ->
  (forall i, indexOf_dot r = i -> 0 <= i -> Z.of_nat (length r) - i - 1 <= limit) ->
  decimal_ok limit (decimal_filter limit r).
Proof.
  intros Hl Hd Hc Hn. destruct r as [|c r'].
  - rewrite decimal_filter_eq by exact Hl. cbn.
    split; [reflexivity|]. split; [lia|]. split; [exact I|].
    intros i Hi Hi0. cbn in Hi. lia.
  - destruct (is_dot c) eqn:Hdot.
    + (* a leading dot: the second pass removes it, no dot is left *)
      apply is_dot_true in Hdot as ->.
      assert (Hr : strip_dots r' = r').
      { apply count_strip_dots. cbn in Hc. lia. }
      cbn in Hd.
      rewrite decimal_filter_eq by exact Hl.
      assert (E : strip_leading_dot (filter is_decimal (46 :: r')) = r').
      { cbn [filter]. change (is_decimal 46) with true. cbn [strip_leading_dot].
        change (is_dot 46) with true. cbv iota.
        apply forallb_filter_id. exact Hd. }
      rewrite E, (cut_at_dot_none r' Hr).
      split; [exact Hd|]. split; [rewrite strip_dots_count by exact Hr; lia|].
      split.
      * destruct r' as [|c' r'']; [exact I|]. cbn in Hr.
        destruct (is_dot c'); [|reflexivity].
        pose proof (filter_length_le (fun c => negb (is_dot c)) r'') as Hle.
        apply (f_equal (@length Z)) in Hr. cbn in Hr. lia.
      * intros i Hi Hi0.
        pose proof (cut_at_dot_spec _ _ _ (cut_at_dot_none r' Hr)) as (_ & _ & Hi').
        rewrite Hi' in Hi. lia.
    + assert (Hok : decimal_ok limit (c :: r')).
      { split; [exact Hd|]. split; [exact Hc|]. split; [exact Hdot | exact Hn]. }
      rewrite decimal_ok_fix by assumption. exact Hok.
Qed.

Lemma decimal_fix_ok (limit : Z) (s : JsString) :
  0 <= limit -> decimal_filter limit s = s -> decimal_ok limit s.
Proof.
  intros Hl E.
  destruct (decimal_filter_shape limit s Hl) as (Hd & Hc & Hn).
  rewrite E in Hd, Hc, Hn.
  split; [exact Hd|]. split; [exact Hc|]. split; [|exact Hn].
  destruct s as [|c s']; [exact I|].
  destruct (is_dot c) eqn:Hdot; [|reflexivity]. exfalso.
  apply is_dot_true in Hdot as ->.
  assert (Hlead : exists t, decimal_filter limit (46 :: s') = 46 :: t)
    by (exists s'; exact E).
  apply (decimal_filter_leading_dot limit _ Hl) in Hlead as [t Ht].
  rewrite forallb_filter_id in Ht by exact Hd.
  injection Ht as ->. cbn in Hc. lia.
Qed.

(** With a limit that is not negative, what [decimalOnly] puts in the
    field holds digits and dots only, at most one dot, and at most
    [limit] characters after the dot.  It can still start with a dot:
    that happens exactly when the typed text, once the characters other
    than digits and dots are removed, starts with two dots, of which only
    the first is removed. *)
Theorem decimal_filter_result (limit : Z) (s : JsString) :
  0 <= limit ->
  forallb is_decimal (decimal_filter limit s) = true /\
  (count_occ Z.eq_dec (decimal_filter limit s) 46%Z <= 1)%nat /\
  (forall i, indexOf_dot (decimal_filter limit s) = i -> 0 <= i ->
             Z.of_nat (length (decimal_filter limit s)) - i - 1 <= limit) /\
  ((exists t, decimal_filter limit s = 46 :: t) <->
   (exists t, filter is_decimal s = 46 :: 46 :: t)).
Proof.
  intros Hl. destruct (decimal_filter_shape limit s Hl) as (H1 & H2 & H3).
  repeat (split; [assumption|]). now apply decimal_filter_leading_dot.
Qed.

(** With a limit that is not negative, the values that [decimalOnly]
    leaves alone are exactly the strings of digits with at most one dot,
    not in the first place, and at most [limit] digits after it. *)
Theorem decimal_filter_fixpoints (limit : Z) (s : JsString) :
  0 <= limit -> (decimal_filter limit s = s <-> decimal_ok limit s).
Proof.
  intros Hl. split; [now apply decimal_fix_ok | now apply decimal_ok_fix].
Qed.

Lemma decimal_filter_twice_ok (limit : Z) (s : JsString) :
  0 <= limit -> decimal_ok limit (decimal_filter limit (decimal_filter limit s)).
Proof.
  intros Hl. destruct (decimal_filter_shape limit s Hl) as (H1 & H2 & H3).
  now apply decimal_filter_second_pass.
Qed.

(** [decimalOnly]'s filter does not always settle in one pass: when the
    text starts with two dots (other characters apart) the first result
    starts with a dot and a second pass changes it.  Two passes always
    settle, on a value of the accepted form. *)
Theorem decimal_filter_two_passes (limit : Z) (s : JsString) :
  0 <= limit ->
  decimal_ok limit (decimal_filter limit (decimal_filter limit s)) /\
  decimal_filter limit (decimal_filter limit (decimal_filter limit s))
  = decimal_filter limit (decimal_filter limit s) /\
  ((exists t, filter is_decimal s = 46 :: 46 :: t) ->
   decimal_filter limit (decimal_filter limit s) <> decimal_filter limit s).
Proof.
  intros Hl. pose proof (decimal_filter_twice_ok limit s Hl) as Hok.
  split; [exact Hok|]. split; [now apply decimal_ok_fix|].
  intros Hs E. apply (decimal_filter_leading_dot limit s Hl) in Hs as [t Ht].
  apply (decimal_fix_ok limit _ Hl) in E. destruct E as (_ & _ & Hh & _).
  rewrite Ht in Hh. discriminate Hh.
Qed.

(** One input event on [decimalOnly], with a limit that is not negative:
    the nested calls end after at most two dispatched events, and leave
    the twice-filtered value, of the accepted form, in the field. *)
Theorem decimal_input_twice (limit : Z) (w : Input) (fuel : nat) :
  0 <= limit -> isComposing w = false ->
  exists w',
    handleInput (decimal_filter limit) (S (S fuel)) w = Some w' /\
    value w' = decimal_filter limit (decimal_filter limit (value w)) /\
    decimal_ok limit (value w') /\
    isComposing w' = false /\
    (dispatched w <= dispatched w' <= dispatched w + 2)%nat.
Proof.
  intros Hl Hc.
  pose proof (decimal_filter_twice_ok limit (value w) Hl) as Hok.
  pose proof (decimal_ok_fix limit _ Hl Hok) as Hfix.
  set (f := decimal_filter limit) in *.
  cbn [handleInput]. rewrite Hc. fold f.
  destruct (list_eq_dec Z.eq_dec (f (value w)) (value w)) as [E1|N1].
  - exists w. rewrite !E1 in Hok. rewrite !E1.
    split; [reflexivity|]. split; [reflexivity|]. split; [exact Hok|].
    split; [exact Hc | lia].
  - cbn [isComposing value dispatched].
    destruct (list_eq_dec Z.eq_dec (f (f (value w))) (f (value w))) as [E2|N2].
    + eexists. split; [reflexivity|]. cbn [value isComposing dispatched].
      rewrite E2 in Hok. rewrite E2.
      split; [reflexivity|]. split; [exact Hok|]. split; [reflexivity | lia].
    + assert (E3 : forall sel n,
                 handleInput f fuel (mkInput false (f (f (value w))) sel n)
                 = Some (mkInput false (f (f (value w))) sel n)).
      { intros sel n. destruct fuel; cbn [handleInput isComposing value];
          rewrite Hfix;
          destruct (list_eq_dec Z.eq_dec (f (f (value w))) (f (f (value w))));
          congruence. }
      rewrite E3. eexists. split; [reflexivity|].
      cbn [value isComposing dispatched].
      split; [reflexivity|]. split; [exact Hok|]. split; [reflexivity | lia].
Qed.

(** After any event, and whatever the limit, the field of either
    directive holds a value that its filter leaves alone, unless an IME
    composition is going on; the listeners always return. *)
Theorem field_filtered_outside_composition (limit : Z) (e : Event)
    (es : list Event) (w : Input) :
  (exists w',
     on_events (integer_filter limit) (e :: es) w = Some w' /\
     (isComposing w' = false -> integer_filter limit (value w') = value w')) /\
  (exists w',
     on_events (decimal_filter limit) (e :: es) w = Some w' /\
     (isComposing w' = false -> decimal_filter limit (value w') = value w')).
Proof.
  assert (Hev : forall f, shrinking f -> forall e w,
             exists w', on_event f e w = Some w' /\
                        (isComposing w' = false -> f (value w') = value w')).
  { intros f Hf e0 w0. destruct e0 as [v c| |]; cbn [on_event].
    - destruct (handleInput_shrinking f Hf (length v)
                  (mkInput (isComposing w0) v c (dispatched w0)))
        as (w' & E & H1 & H2 & _); [cbn; lia|].
      exists w'. split; [exact E|]. intros Hc. apply H2.
      cbn in *. congruence.
    - eexists. split; [reflexivity|]. discriminate.
    - destruct (handleInput_shrinking f Hf (length (value w0))
                  (mkInput false (value w0) (selectionStart w0) (dispatched w0)))
        as (w' & E & H1 & H2 & _); [cbn; lia|].
      exists w'. split; [exact E|]. intros _. now apply H2. }
  assert (Hevs : forall f, shrinking f -> forall es e w,
             exists w', on_events f (e :: es) w = Some w' /\
                        (isComposing w' = false -> f (value w') = value w')).
  { intros f Hf. induction es0 as [|e1 es0 IH]; intros e0 w0.
    - destruct (Hev f Hf e0 w0) as (w' & E & H). exists w'.
      cbn [on_events]. now rewrite E.
    - destruct (Hev f Hf e0 w0) as (w1 & E & _).
      destruct (IH e1 w1) as (w' & E' & H). exists w'.
      cbn [on_events] in *. rewrite E. split; assumption. }
  split; apply Hevs;
    [apply integer_filter_shrinking | apply decimal_filter_shrinking].
Qed.

(** *** mounted and updated *)

Lemma is_digit_code (d : Z) : 0 <= d < 10 -> is_digit (48 + d) = true.
Proof.
  intros H. unfold is_digit.
  apply andb_true_intro. split; apply Z.leb_le; lia.
Qed.

Lemma digits_digit (fuel : nat) :
  forall n, 0 <= n -> forallb is_digit (digits fuel n) = true.
Proof.
  induction fuel as [|fuel IH]; intros n Hn; [reflexivity|].
  cbn [digits]. destruct (Z.ltb_spec n 10).
  - cbn [forallb]. rewrite is_digit_code by lia. reflexivity.
  - rewrite forallb_app, IH by (apply Z.div_pos; lia). cbn [forallb].
    rewrite is_digit_code by (apply Z.mod_pos_bound; lia). reflexivity.
Qed.

Lemma digits_length (fuel : nat) :
  forall n, 1 <= n -> Z.of_nat (length (digits fuel n)) <= n.
Proof.
  induction fuel as [|fuel IH]; intros n Hn; [cbn; lia|].
  cbn [digits]. destruct (Z.ltb_spec n 10); [cbn; lia|].
  rewrite length_app. cbn [length].
  assert (H1 : 1 <= n / 10) by (apply Z.div_le_lower_bound; lia).
  specialize (IH (n / 10) H1).
  assert (n / 10 + 1 <= n) by (pose proof (Z.div_lt n 10); lia).
  lia.
Qed.

Lemma digits_denote (fuel : nat) :
  forall n, 0 <= n < 2 ^ Z.of_nat fuel -> digits_value (digits fuel n) = n.
Proof.
  unfold digits_value.
  induction fuel as [|fuel IH]; intros n Hn; [cbn in *; lia|].
  cbn [digits]. destruct (Z.ltb_spec n 10); [cbn [fold_left]; lia|].
  rewrite fold_left_app, IH; [cbn [fold_left]; pose proof (Z.div_mod n 10); lia|].
  rewrite Nat2Z.inj_succ, Z.pow_succ_r in Hn by lia.
  split; [apply Z.div_pos; lia|].
  apply Z.div_lt_upper_bound; lia.
Qed.

Lemma digits_nonempty (fuel : nat) (n : Z) : digits (S fuel) n <> [].
Proof.
  cbn [digits]. destruct (n <? 10); [discriminate|].
  intros H. apply app_eq_nil in H as [_ H]. discriminate.
Qed.

Lemma digits_decimal_ok (limit : Z) (l : JsString) :
  forallb is_digit l = true -> decimal_ok limit l.
Proof.
  intros H.
  assert (Hnd : strip_dots l = l).
  { unfold strip_dots. apply forallb_filter_id.
    induction l as [|c l IH]; [reflexivity|]. cbn in *.
    apply andb_prop in H as [H1 H2]. rewrite IH by exact H2.
    unfold is_digit, is_dot in *.
    destruct (Z.eqb_spec c 46) as [->|_]; [discriminate H1 | reflexivity]. }
  split; [|split; [|split]].
  - induction l as [|c l IH]; [reflexivity|]. cbn in *.
    apply andb_prop in H as [H1 H2]. unfold is_decimal at 1. rewrite H1. cbn.
    apply IH; [exact H2|].
    destruct (is_dot c); cbn in Hnd; [|now injection Hnd].
    pose proof (filter_length_le (fun c => negb (is_dot c)) l) as Hle.
    apply (f_equal (@length Z)) in Hnd. cbn in Hnd. lia.
  - rewrite strip_dots_count by exact Hnd. lia.
  - destruct l as [|c l]; [exact I|]. cbn in H.
    apply andb_prop in H as [H1 _]. unfold is_digit, is_dot in *.
    destruct (Z.eqb_spec c 46) as [->|_]; [discriminate H1 | reflexivity].
  - intros i Hi Hi0.
    pose proof (cut_at_dot_spec _ _ _ (cut_at_dot_none l Hnd)) as (_ & _ & Hi').
    rewrite Hi' in Hi. lia.
Qed.

(** Both hooks of both directives format the binding value itself, which
    is the limit: with an integer limit [n] from 1 to 2^53, [mounted]
    replaces whatever the field held by the decimal digits of [n], and so
    does every [updated].  A binding that is null or undefined leaves the
    field alone, and one that is not a number makes [mounted] throw. *)
Theorem hooks_write_limit_into_field (n : Z) (el_value : JsString) :
  1 <= n <= 9007199254740992 ->
  number_toString n <> [] /\
  forallb is_digit (number_toString n) = true /\
  digits_value (number_toString n) = n /\
  mounted_value formatInteger (Some (VNumber n)) el_value = Some (number_toString n) /\
  mounted_value formatDecimal (Some (VNumber n)) el_value = Some (number_toString n) /\
  updated_value formatInteger (Some n) el_value = number_toString n /\
  updated_value formatDecimal (Some n) el_value = number_toString n /\
  mounted_value formatInteger None el_value = Some el_value /\
  updated_value formatDecimal None el_value = el_value /\
  (forall s, mounted_value formatInteger (Some (VString s)) el_value = None).
Proof.
  intros [Hn _].
  assert (E : number_toString n = digits (S (Z.to_nat (Z.log2 n))) n).
  { unfold number_toString. destruct (Z.ltb_spec n 0); [lia | reflexivity]. }
  assert (Hd : forallb is_digit (number_toString n) = true)
    by (rewrite E; apply digits_digit; lia).
  assert (Hi : integer_filter n (number_toString n) = number_toString n).
  { apply integer_filter_fix; [lia | exact Hd |].
    rewrite E. apply digits_length. exact Hn. }
  assert (Hde : decimal_filter n (number_toString n) = number_toString n).
  { apply decimal_ok_fix; [lia|]. apply digits_decimal_ok. exact Hd. }
  split; [rewrite E; apply digits_nonempty|]. split; [exact Hd|].
  split.
  { rewrite E. apply digits_denote. split; [lia|].
    rewrite Nat2Z.inj_succ, Z2Nat.id by apply Z.log2_nonneg.
    apply Z.log2_spec. lia. }
  cbn [mounted_value updated_value formatInteger formatDecimal].
  rewrite Hi, Hde.
  repeat split; try reflexivity;
    destruct (list_eq_dec Z.eq_dec (number_toString n) el_value); congruence.
Qed.

End NumberOnlyProperties.

(** ** Instances of the properties of the other hooks and directives *)

(** Two calls that are 150 ms apart, with a delay of 100 ms. *)
Lemma throttle_transparent_witness :
  Throttle.spaced 100 0
    (Throttle.invocations 100
       [Throttle.Invoke 1; Throttle.Clock 250; Throttle.Invoke 2]) /\
  Throttle.executed
    (Throttle.run 100 [Throttle.Invoke 1; Throttle.Clock 250; Throttle.Invoke 2]
       (Throttle.init 100))
  = [(100, 1); (250, 2)].
Proof.
  assert (H : Throttle.spaced 100 0
                (Throttle.invocations 100
                   [Throttle.Invoke 1; Throttle.Clock 250; Throttle.Invoke 2]))
    by (cbn; lia).
  split; [exact H|].
  exact (throttle_transparent Z 100 100 _ H).
Defined.

(** Two calls within 50 ms of an execution, with a delay of 100 ms. *)
Lemma throttle_drops_burst_witness :
  Throttle.within 100 100
    (Throttle.invocations 100
       [Throttle.Invoke 2; Throttle.Clock 150; Throttle.Invoke 3]) /\
  Throttle.executed
    (Throttle.run 100 [Throttle.Invoke 2; Throttle.Clock 150; Throttle.Invoke 3]
       (Throttle.mkWorld 100 100 [(100, 1)]))
  = [(100, 1)].
Proof.
  assert (H : Throttle.within 100 100
                (Throttle.invocations 100
                   [Throttle.Invoke 2; Throttle.Clock 150; Throttle.Invoke 3]))
    by (repeat constructor; cbn; lia).
  split; [exact H|].
  exact (proj1 (throttle_drops_burst Z 100
                  (Throttle.mkWorld 100 100 [(100, 1)]) _ H)).
Defined.

(** Three calls through a function throttled with a delay of zero. *)
Lemma throttle_zero_delay_witness :
  0 <= 0 /\ 0 <= 5 /\
  Throttle.monotone 5
    [Throttle.Invoke 1; Throttle.Invoke 2; Throttle.Clock 6; Throttle.Invoke 3] /\
  Throttle.executed
    (Throttle.run 0
       [Throttle.Invoke 1; Throttle.Invoke 2; Throttle.Clock 6; Throttle.Invoke 3]
       (Throttle.init 5))
  = [(5, 1); (5, 2); (6, 3)].
Proof.
  assert (H1 : 0 <= 0) by lia.
  assert (H2 : 0 <= 5) by lia.
  assert (H3 : Throttle.monotone 5
                 [Throttle.Invoke 1; Throttle.Invoke 2; Throttle.Clock 6;
                  Throttle.Invoke 3]) by (cbn; lia).
  split; [exact H1|]. split; [exact H2|]. split; [exact H3|].
  exact (throttle_zero_delay Z 0 5 _ H1 H2 H3).
Defined.

(** The test of the hook: a second call 50 ms after the first one, with a
    delay of 100 ms; [fn] runs once, 100 ms after the second call, with
    its argument. *)
Example debounce_cancel_scenario :
  Debounce.log
    (Debounce.run 100
       [Debounce.Call 1; Debounce.Clock 50; Debounce.RunNext;
        Debounce.Call 2; Debounce.Clock 100; Debounce.RunNext; Debounce.RunNext;
        Debounce.Clock 150; Debounce.RunNext;
        Debounce.RunNext; Debounce.RunNext]
       (Debounce.init 0))
  = [Debounce.Called 0 1; Debounce.Called 50 2; Debounce.Executed 150 (Some 2)].
Proof. reflexivity. Qed.

(** A call at time 0 and the clock at 100, with a delay of 100 ms. *)
Lemma debounce_fires_after_quiet_witness :
  (0 < Debounce.executeId
         (Debounce.run 100 [Debounce.Call 7; Debounce.Clock 100] (Debounce.init 0)))%nat /\
  Debounce.log
    (Debounce.run 100 [Debounce.RunNext]
       (Debounce.run 100 [Debounce.Call 7; Debounce.Clock 100] (Debounce.init 0)))
  = [Debounce.Called 0 7; Debounce.Executed 100 (Some 7)].
Proof.
  assert (H1 : (0 < Debounce.executeId
                  (Debounce.run 100 [Debounce.Call 7; Debounce.Clock 100]
                     (Debounce.init 0)))%nat) by (cbn; lia).
  split; [exact H1|].
  destruct (debounce_fires_after_quiet Z 100
              [Debounce.Call 7; Debounce.Clock 100] 0 _ eq_refl H1 eq_refl
              ltac:(cbn; lia)) as (a & Ea & E).
  vm_compute in Ea. injection Ea as <-.
  exact (f_equal Debounce.log E).
Defined.

(** A second call and two frames within 60 ms of a call, with a delay of
    100 ms. *)
Lemma debounce_silent_within_delay_witness :
  0 < 100 /\
  Debounce.clock_within 0 (0 + 100)
    [Debounce.RunNext; Debounce.Clock 30; Debounce.Call 2; Debounce.Clock 60;
     Debounce.RunNext; Debounce.RunNext] /\
  Debounce.executions
    (Debounce.log
       (Debounce.run 100
          [Debounce.RunNext; Debounce.Clock 30; Debounce.Call 2;
           Debounce.Clock 60; Debounce.RunNext; Debounce.RunNext]
          (Debounce.step 100 (Debounce.Call 1) (Debounce.init 0))))
  = [].
Proof.
  assert (H1 : 0 < 100) by lia.
  assert (H2 : Debounce.clock_within 0 (0 + 100)
                 [Debounce.RunNext; Debounce.Clock 30; Debounce.Call 2;
                  Debounce.Clock 60; Debounce.RunNext; Debounce.RunNext])
    by (cbn; lia).
  split; [exact H1|]. split; [exact H2|].
  exact (debounce_silent_within_delay Z 100 (Debounce.init 0) 1 _ H1 H2).
Defined.

(** The text 123a typed in a field limited to two digits, the cursor
    after the last character. *)
Lemma integer_input_once_witness :
  0 <= 2 /\
  exists w',
    NumberOnly.handleInput (NumberOnly.integer_filter 2) 1
      (NumberOnly.mkInput false [49; 50; 51; 97] 4 0) = Some w' /\
    NumberOnly.value w' = [49; 50].
Proof.
  assert (H1 : 0 <= 2) by lia.
  split; [exact H1|].
  destruct (integer_input_once 2 (NumberOnly.mkInput false [49; 50; 51; 97] 4 0)
              0 H1 eq_refl ltac:(cbn; lia)) as (w' & E & Ev & _).
  exists w'. split; [exact E | exact Ev].
Defined.

(** The text ..5 with a limit of two decimals: the result starts with a
    dot. *)
Lemma decimal_filter_result_witness :
  0 <= 2 /\
  ((exists t, NumberOnly.decimal_filter 2 [46; 46; 53] = 46 :: t) <->
   (exists t, filter NumberOnly.is_decimal [46; 46; 53] = 46 :: 46 :: t)).
Proof.
  assert (H1 : 0 <= 2) by lia.
  split; [exact H1|].
  exact (proj2 (proj2 (proj2 (decimal_filter_result 2 [46; 46; 53] H1)))).
Defined.

(** The text 45.67 with a limit of two decimals is left alone. *)
Lemma decimal_filter_fixpoints_witness :
  0 <= 2 /\
  NumberOnly.decimal_ok 2 [52; 53; 46; 54; 55].
Proof.
  assert (H1 : 0 <= 2) by lia.
  split; [exact H1|].
  exact (proj1 (decimal_filter_fixpoints 2 [52; 53; 46; 54; 55] H1) eq_refl).
Defined.

(** The text ..5 with a limit of two decimals: the second pass removes
    the dot that the first one left. *)
Lemma decimal_filter_two_passes_witness :
  0 <= 2 /\
  NumberOnly.decimal_filter 2 (NumberOnly.decimal_filter 2 [46; 46; 53])
  <> NumberOnly.decimal_filter 2 [46; 46; 53].
Proof.
  assert (H1 : 0 <= 2) by lia.
  split; [exact H1|].
  exact (proj2 (proj2 (decimal_filter_two_passes 2 [46; 46; 53] H1))
           (ex_intro _ [53] eq_refl)).
Defined.

(** The text ..5 typed in a field limited to two decimals: two events
    are dispatched and the field holds 5. *)
Lemma decimal_input_twice_witness :
  0 <= 2 /\
  exists w',
    NumberOnly.handleInput (NumberOnly.decimal_filter 2) 2
      (NumberOnly.mkInput false [46; 46; 53] 3 0) = Some w' /\
    NumberOnly.value w' = [53].
Proof.
  assert (H1 : 0 <= 2) by lia.
  split; [exact H1|].
  destruct (decimal_input_twice 2 (NumberOnly.mkInput false [46; 46; 53] 3 0)
              0 H1 eq_refl) as (w' & E & Ev & _).
  exists w'. split; [exact E | exact Ev].
Defined.

(** A field that holds 7 and a directive bound to 12: the field shows 12
    once mounted. *)
Lemma hooks_write_limit_into_field_witness :
  1 <= 12 <= 9007199254740992 /\
  NumberOnly.mounted_value NumberOnly.formatInteger
    (Some (NumberOnly.VNumber 12)) [55]
  = Some [49; 50].
Proof.
  assert (H1 : 1 <= 12 <= 9007199254740992) by lia.
  split; [exact H1|].
  destruct (hooks_write_limit_into_field 12 [55] H1) as (_ & _ & _ & E & _).
  exact E.
Defined.

(** ** Instances of the further properties of useTimeSlice *)

(** Five elements by slices of two, a pause and a resumption after the
    first slice: four calls so far, in index order. *)
Lemma pause_resume_keeps_order_witness :
  reachable 0 five init /\
  isRunning (@init Z Z) = false /\
  exists evs,
    calls (run 0 five [Pause; Tick 500; Resume] (exec (start 0 five) init))
    = calls init ++ evs /\
    handler_calls evs = [(1, 0); (2, 1); (3, 2); (4, 3)].
Proof.
  assert (H1 : reachable 0 five init) by (exists []; reflexivity).
  assert (H2 : isRunning (@init Z Z) = false) by reflexivity.
  split; [exact H1|]. split; [exact H2|].
  destruct (pause_resume_keeps_order Z Z 0 five init [Pause; Tick 500; Resume]
              H1 H2 eq_refl eq_refl) as (evs & E & Hrun & _).
  exists evs. split; [exact E|]. exact (proj1 (Hrun eq_refl)).
Defined.

(** Three elements and a count of zero: after the first timer nothing has
    been handled, and the timers never run out. *)
Lemma nonpositive_count_never_completes_witness :
  count (opts [1; 2; 3] 0 100) <= 0 /\
  0 < total (opts [1; 2; 3] 0 100) /\
  reachable 0 (opts [1; 2; 3] 0 100)
    (run 0 (opts [1; 2; 3] 0 100) [Start; Tick 100; Fire 1] init) /\
  handler_calls
    (calls (run 0 (opts [1; 2; 3] 0 100) [Start; Tick 100; Fire 1] init)) = [] /\
  runAllTimers 0 (opts [1; 2; 3] 0 100) 50
    (run 0 (opts [1; 2; 3] 0 100) [Start; Tick 100; Fire 1] init) = None.
Proof.
  assert (H1 : count (opts [1; 2; 3] 0 100) <= 0) by (cbn; lia).
  assert (H2 : 0 < total (opts [1; 2; 3] 0 100)) by (cbn; lia).
  assert (H3 : reachable 0 (opts [1; 2; 3] 0 100)
                 (run 0 (opts [1; 2; 3] 0 100) [Start; Tick 100; Fire 1] init))
    by (exists [Start; Tick 100; Fire 1%nat]; reflexivity).
  split; [exact H1|]. split; [exact H2|]. split; [exact H3|].
  destruct (nonpositive_count_never_completes Z Z 0 (opts [1; 2; 3] 0 100) _
              H1 H2 H3) as (E1 & _ & _ & _ & E5).
  split; [exact E1|]. exact (E5 eq_refl eq_refl 50%nat).
Defined.

(** ** The scenarios of the other test-suites *)

(** Three calls through a function throttled to one per 100 ms: the
    second is dropped, the third comes 100 ms after the first. *)
Example throttle_scenario :
  Throttle.executed
    (Throttle.run 100
       [Throttle.Invoke 1; Throttle.Invoke 2; Throttle.Clock 1100;
        Throttle.Invoke 3]
       (Throttle.init 1000))
  = [(1000, 1); (1100, 3)].
Proof. reflexivity. Qed.

(** The field of the test of [integerOnly], bound to 2: it shows 2 once
    mounted, then 12 after 123abc is typed, 45 after 45.67, and nothing
    after five punctuation signs. *)
Example integer_only_scenario :
  NumberOnly.mounted_value NumberOnly.formatInteger
    (Some (NumberOnly.VNumber 2)) [] = Some [50] /\
  option_map NumberOnly.value
    (NumberOnly.on_events (NumberOnly.integer_filter 2)
       [NumberOnly.Typed [49; 50; 51; 97; 98; 99] 6]
       (NumberOnly.mkInput false [50] 1 0)) = Some [49; 50] /\
  option_map NumberOnly.value
    (NumberOnly.on_events (NumberOnly.integer_filter 2)
       [NumberOnly.Typed [52; 53; 46; 54; 55] 5]
       (NumberOnly.mkInput false [49; 50] 2 1)) = Some [52; 53] /\
  option_map NumberOnly.value
    (NumberOnly.on_events (NumberOnly.integer_filter 2)
       [NumberOnly.Typed [33; 64; 35; 36; 37] 5]
       (NumberOnly.mkInput false [52; 53] 2 2)) = Some [].
Proof. repeat split; reflexivity. Qed.

(** The field of the test of [decimalOnly], bound to 2: 123abc..11 gives
    123.11, 45.678 gives 45.67, and five punctuation signs give nothing. *)
Example decimal_only_scenario :
  option_map NumberOnly.value
    (NumberOnly.on_events (NumberOnly.decimal_filter 2)
       [NumberOnly.Typed [49; 50; 51; 97; 98; 99; 46; 46; 49; 49] 10;
        NumberOnly.Typed [52; 53; 46; 54; 55; 56] 6]
       (NumberOnly.mkInput false [50] 1 0)) = Some [52; 53; 46; 54; 55] /\
  NumberOnly.decimal_filter 2 [49; 50; 51; 97; 98; 99; 46; 46; 49; 49]
  = [49; 50; 51; 46; 49; 49] /\
  NumberOnly.decimal_filter 2 [33; 64; 35; 36; 37] = [].
Proof. repeat split; reflexivity. Qed.
